(** * brainfuck.py: the tape, the bracket scan and the dispatch loop

    A shallow embedding of [src/brainfuck.py].  Python integers are [Z],
    a [bytearray] is a [list Z] of values in [0, 256), a [str] is the list
    of its code points, exceptions are the constructors of [exn], and the
    two loops that need not terminate ([for cmd in self._program] and
    [while self._program.cur_elem != 0]) take a step budget. *)

From Stdlib Require Import ZArith Lia Ascii String.
From stdpp Require Import base tactics option list.

Local Open Scope Z_scope.

(** ** Exceptions and outcomes *)

Inductive exn : Type :=
| IndexError (msg : string)
| BrainfuckSyntaxError (msg : string)
| KeyError (key : Z)
| OverflowError (msg : string)
| StopIteration.

(** What a call does: it returns, it raises, or the step budget of an
    enclosing loop ran out before it did either. *)
Inductive outcome (A : Type) : Type :=
| Ok (a : A)
| Raise (e : exn)
| Timeout.
Arguments Ok {A} a.
Arguments Raise {A} e.
Arguments Timeout {A}.

#[global] Instance outcome_ret : MRet outcome := fun A a => Ok a.
#[global] Instance outcome_bind : MBind outcome := fun A B k x =>
  match x with
  | Ok a => k a
  | Raise e => Raise e
  | Timeout => Timeout
  end.

(** [ord] of a one-character literal, to write the instruction symbols. *)
Definition ord (c : ascii) : Z := Z.of_N (N_of_ascii c).

(** A [str] literal as the list of its code points. *)
Fixpoint str (s : string) : list Z :=
  match s with
  | EmptyString => []
  | String c s' => ord c :: str s'
  end.

(** ** class Tape *)

Record Tape : Type := mkTape { _storage : list Z; _ptr : Z }.

(** [bytearray(n)]: [n] zero bytes. *)
Definition bytearray (n : nat) : list Z := replicate n 0.

(** [Tape.__init__]; a negative length makes [bytearray] raise before any
    tape exists, so the length is a natural number. *)
Definition Tape__init__ (initial_tape_len : nat) : Tape :=
  {| _storage := bytearray initial_tape_len; _ptr := 0 |}.

(** [Tape()] with the default [initial_tape_len=4096]. *)
Definition Tape_ : Tape := Tape__init__ 4096.

(** The loop of the [ptr] setter:
    [while len(self._storage) <= self._ptr:
         self._storage.extend(bytearray(len(self._storage) + 1))].
    Every round adds at least one byte, so [S (Z.to_nat ptr)] rounds are
    enough for it to exit ([grow_exits] below). *)
Fixpoint grow_loop (rounds : nat) (storage : list Z) (ptr : Z) : list Z :=
  match rounds with
  | O => storage
  | S r =>
      if Z.of_nat (length storage) <=? ptr
      then grow_loop r (storage ++ bytearray (length storage + 1)) ptr
      else storage
  end.

Definition grow (storage : list Z) (ptr : Z) : list Z :=
  grow_loop (S (Z.to_nat ptr)) storage ptr.

(** The [ptr] setter. *)
Definition ptr_set (self : Tape) (n : Z) : outcome Tape :=
  if n <? 0 then Raise (IndexError "Tried to set tape pointer < 0")
  else Ok {| _storage := grow (_storage self) n; _ptr := n |}.

(** [b[i]] on a bytearray: a negative index counts from the end. *)
Definition getitem (b : list Z) (i : Z) : outcome Z :=
  let j := if i <? 0 then Z.of_nat (length b) + i else i in
  if j <? 0 then Raise (IndexError "bytearray index out of range")
  else match b !! Z.to_nat j with
       | Some x => Ok x
       | None => Raise (IndexError "bytearray index out of range")
       end.

(** [b[i] = v] on a bytearray; the only caller stores [elem % 256], which
    is a byte, so the ValueError of an out-of-range value is not there. *)
Definition setitem (b : list Z) (i : Z) (v : Z) : outcome (list Z) :=
  let j := if i <? 0 then Z.of_nat (length b) + i else i in
  if (j <? 0) || (Z.of_nat (length b) <=? j)
  then Raise (IndexError "bytearray index out of range")
  else Ok (<[Z.to_nat j := v]> b).

(** The [cur_elem] getter. *)
Definition cur_elem (self : Tape) : outcome Z :=
  getitem (_storage self) (_ptr self).

(** The [cur_elem] setter. *)
Definition cur_elem_set (self : Tape) (elem : Z) : outcome Tape :=
  s ← setitem (_storage self) (_ptr self) (elem mod 256);
  Ok {| _storage := s; _ptr := _ptr self |}.

(** [Tape.__next__]. *)
Definition __next__ (self : Tape) : outcome (Z * Tape) :=
  ret ← cur_elem self;
  self ← ptr_set self (_ptr self + 1);
  Ok (ret, self).

(** [Tape.load]. *)
Definition load (self : Tape) (data : list Z) : outcome Tape :=
  ptr_set {| _storage := data; _ptr := _ptr self |} 0.

(** ** Python lists used as a stack, and the standard streams *)

(** [l.pop()]. *)
Definition pop (l : list Z) : outcome (list Z) :=
  match l with
  | [] => Raise (IndexError "pop from empty list")
  | _ => Ok (removelast l)
  end.

(** [l[-1]]. *)
Definition top (l : list Z) : outcome Z :=
  match last l with
  | Some x => Ok x
  | None => Raise (IndexError "list index out of range")
  end.

(** [sys.stdin] as the characters not read yet, [sys.stdout.buffer] as the
    bytes written so far. *)
Record Sys : Type := mkSys { stdin : list Z; stdout : list Z }.

(** [sys.stdin.read(1)]: a string of one character, or the empty string at
    end of input. *)
Definition stdin_read1 (sys : Sys) : list Z * Sys :=
  match stdin sys with
  | [] => ([], sys)
  | c :: rest => ([c], {| stdin := rest; stdout := stdout sys |})
  end.

(** [n.to_bytes(1, sys.byteorder)]. *)
Definition to_bytes1 (n : Z) : outcome (list Z) :=
  if n <? 0 then Raise (OverflowError "can't convert negative int to unsigned")
  else if 256 <=? n then Raise (OverflowError "int too big to convert")
  else Ok [n].

(** [sys.stdout.buffer.write(b)] followed by [flush()]. *)
Definition stdout_write (sys : Sys) (b : list Z) : Sys :=
  {| stdin := stdin sys; stdout := stdout sys ++ b |}.

(** ** class BfTuringMachine *)

Record BfTuringMachine : Type := mkBf {
  _memory : Tape;
  _program : Tape;
  _bracket_stack : list Z
}.

Definition with_memory (self : BfTuringMachine) (t : Tape) : BfTuringMachine :=
  {| _memory := t; _program := _program self;
     _bracket_stack := _bracket_stack self |}.
Definition with_program (self : BfTuringMachine) (t : Tape) : BfTuringMachine :=
  {| _memory := _memory self; _program := t;
     _bracket_stack := _bracket_stack self |}.
Definition with_bracket_stack (self : BfTuringMachine) (s : list Z)
  : BfTuringMachine :=
  {| _memory := _memory self; _program := _program self;
     _bracket_stack := s |}.

(** A bound method of the machine: it runs on the machine and the streams.
    The budget is for the one handler that loops, [_left_bracket]. *)
Definition handler : Type :=
  nat -> BfTuringMachine -> Sys -> outcome (BfTuringMachine * Sys).

Definition _shift_data_ptr (n : Z) : handler := fun _ self sys =>
  m ← ptr_set (_memory self) (_ptr (_memory self) + n);
  Ok (with_memory self m, sys).

Definition _add_to_current_byte (n : Z) : handler := fun _ self sys =>
  c ← cur_elem (_memory self);
  m ← cur_elem_set (_memory self) (c + n);
  Ok (with_memory self m, sys).

Definition _current_byte_out : handler := fun _ self sys =>
  c ← cur_elem (_memory self);
  b ← to_bytes1 c;
  Ok (self, stdout_write sys b).

Definition _read_byte_and_store : handler := fun _ self sys =>
  let '(char, sys) := stdin_read1 sys in
  match char with
  | c :: _ =>
      m ← cur_elem_set (_memory self) c;
      Ok (with_memory self m, sys)
  | [] =>
      m ← cur_elem_set (_memory self) 0;
      Ok (with_memory self m, sys)
  end.

(** The [for cmd in self._program] loop of [_left_bracket], with the
    [raise] that follows it: the loop ends when [__next__] raises
    [StopIteration]. *)
Fixpoint _left_bracket_scan (fuel : nat) (program : Tape)
    (nested_brackets : Z) : outcome Tape :=
  match fuel with
  | O => Timeout
  | S fuel =>
      match __next__ program with
      | Raise StopIteration => Raise (BrainfuckSyntaxError "Unmatched [")
      | Raise e => Raise e
      | Timeout => Timeout
      | Ok (cmd, program) =>
          if negb (bool_decide (cmd ∈ str "[]"))
          then _left_bracket_scan fuel program nested_brackets
          else if cmd =? ord "["
          then _left_bracket_scan fuel program (nested_brackets + 1)
          else if negb (nested_brackets =? 0)
          then _left_bracket_scan fuel program (nested_brackets - 1)
          else ptr_set program (_ptr program - 1)
      end
  end.

Definition _left_bracket : handler := fun fuel self sys =>
  let self :=
    with_bracket_stack self (_bracket_stack self ++ [_ptr (_program self)]) in
  c ← cur_elem (_memory self);
  if negb (c =? 0) then Ok (self, sys)
  else
    s ← pop (_bracket_stack self);
    let self := with_bracket_stack self s in
    '(_, p) ← __next__ (_program self);
    p ← _left_bracket_scan fuel p 0;
    Ok (with_program self p, sys).

Definition _right_bracket : handler := fun _ self sys =>
  match _bracket_stack self with
  | [] => Raise (BrainfuckSyntaxError "Unmatched ]")
  | _ =>
      c ← cur_elem (_memory self);
      if c =? 0
      then s ← pop (_bracket_stack self); Ok (with_bracket_stack self s, sys)
      else
        t ← top (_bracket_stack self);
        p ← ptr_set (_program self) t;
        Ok (with_program self p, sys)
  end.

(** The dictionary [self._bf_cmds], keyed by the code point of the symbol. *)
Definition _bf_cmds : list (Z * handler) :=
  [ (ord ">", _shift_data_ptr 1);
    (ord "<", _shift_data_ptr (-1));
    (ord "+", _add_to_current_byte 1);
    (ord "-", _add_to_current_byte (-1));
    (ord ".", _current_byte_out);
    (ord ",", _read_byte_and_store);
    (ord "[", _left_bracket);
    (ord "]", _right_bracket) ].

(** [d.keys()] and [d[k]]. *)
Definition keys {V} (d : list (Z * V)) : list Z := d.*1.

Fixpoint dict_get {V} (d : list (Z * V)) (k : Z) : outcome V :=
  match d with
  | [] => Raise (KeyError k)
  | (k', v) :: d' => if k =? k' then Ok v else dict_get d' k
  end.

(** [BfTuringMachine.__init__]. *)
Definition BfTuringMachine_ : BfTuringMachine :=
  {| _memory := Tape_; _program := Tape_; _bracket_stack := [] |}.

(** The [for c in program] loop of [load_program]. *)
Definition to_load_of (program : list Z) : list Z :=
  fold_left
    (fun to_load c =>
       if negb (bool_decide (c ∈ keys _bf_cmds)) then to_load
       else to_load ++ [c])
    program [].

Definition load_program (self : BfTuringMachine) (program : list Z)
  : outcome BfTuringMachine :=
  p ← load (_program self) (to_load_of program);
  Ok (with_program self p).

(** One round of the [while] loop of [start_program]: the handler of the
    byte [b] under the program cursor, then [self._program.ptr += 1]. *)
Definition start_program_round (fuel : nat) (b : Z) (self : BfTuringMachine)
    (sys : Sys) : outcome (BfTuringMachine * Sys) :=
  h ← dict_get _bf_cmds b;
  '(self, sys) ← h fuel self sys;
  p ← ptr_set (_program self) (_ptr (_program self) + 1);
  Ok (with_program self p, sys).

Fixpoint start_program (fuel : nat) (self : BfTuringMachine) (sys : Sys)
  : outcome (BfTuringMachine * Sys) :=
  match fuel with
  | O => Timeout
  | S fuel =>
      b ← cur_elem (_program self);
      if negb (b =? 0)
      then '(self, sys) ← start_program_round fuel b self sys;
           start_program fuel self sys
      else Ok (self, sys)
  end.

(** Loading a source text into a new machine and running it. *)
Definition run (fuel : nat) (source : list Z) (input : list Z)
  : outcome (BfTuringMachine * Sys) :=
  self ← load_program BfTuringMachine_ source;
  start_program fuel self {| stdin := input; stdout := [] |}.

Definition output {A} (r : outcome (A * Sys)) : outcome (list Z) :=
  '(_, sys) ← r; Ok (stdout sys).

(** ** Vocabulary of the statements *)

Ltac unbind := unfold mbind, outcome_bind, mret, outcome_ret in *.

(** The cursor is an index into the storage. *)
Definition tape_ok (t : Tape) : Prop :=
  0 <= _ptr t < Z.of_nat (length (_storage t)).

(** [s'] is [s] followed by zero bytes only. *)
Definition zero_extends (s s' : list Z) : Prop :=
  exists k : nat, s' = s ++ replicate k 0.

(** Every stored value is a byte. *)
Definition bytes_ok (s : list Z) : Prop := Forall (fun b => 0 <= b < 256) s.

(** Every stored byte is an instruction symbol or the zero fill. *)
Definition program_bytes_ok (s : list Z) : Prop :=
  Forall (fun b => b = 0 \/ b ∈ keys _bf_cmds) s.

(** What holds of a machine at every point of a run: both cursors are
    inside their storage, the memory holds bytes, and the bracket stack
    holds positions. *)
Record machine_ok (self : BfTuringMachine) : Prop := {
  memory_ok : tape_ok (_memory self);
  memory_bytes_ok : bytes_ok (_storage (_memory self));
  program_ok : tape_ok (_program self);
  bracket_stack_ok : Forall (fun p => 0 <= p) (_bracket_stack self)
}.

(** The states a run goes through: the machine as loaded, then one round of
    the dispatch loop after the other. *)
Inductive reachable (source input : list Z) : BfTuringMachine -> Sys -> Prop :=
| reachable_loaded self :
    load_program BfTuringMachine_ source = Ok self ->
    reachable source input self {| stdin := input; stdout := [] |}
| reachable_round self sys b fuel self' sys' :
    reachable source input self sys ->
    cur_elem (_program self) = Ok b -> b <> 0 ->
    start_program_round fuel b self sys = Ok (self', sys') ->
    reachable source input self' sys'.

(** [l.count(c)]. *)
Definition count (c : Z) (l : list Z) : Z :=
  Z.of_nat (length (filter (fun x => x = c) l)).

(** The tape has [ops] from its cursor on, and after them only zero bytes
    up to the end of its storage. *)
Definition reads (p : Tape) (ops : list Z) : Prop :=
  tape_ok p /\
  exists pre zs : list Z,
    _storage p = pre ++ ops ++ zs /\
    _ptr p = Z.of_nat (length pre) /\
    Forall (fun z => z = 0) zs.

(** The eight instruction symbols, and a source text with every other
    character stripped: the two notions the description of loading is
    written in. *)
Definition instruction_symbols : list Z := str "><+-.,[]".

Fixpoint strip (source : list Z) : list Z :=
  match source with
  | [] => []
  | c :: rest =>
      if bool_decide (c ∈ instruction_symbols) then c :: strip rest
      else strip rest
  end.

(** A text in which every []] closes an earlier [[] and no [[] is left
    open: [depth] counts the brackets open so far.  The body of a loop
    [[...]] is such a text, and the []] after it is the matching close. *)
Fixpoint balanced_from (depth : nat) (text : list Z) : bool :=
  match text with
  | [] => match depth with O => true | S _ => false end
  | c :: rest =>
      if c =? ord "[" then balanced_from (S depth) rest
      else if c =? ord "]" then
        match depth with
        | O => false
        | S d => balanced_from d rest
        end
      else balanced_from depth rest
  end.

Definition balanced (text : list Z) : Prop := balanced_from 0 text = true.

(** ** Vocabulary of the further properties *)

(** The tape as the unbounded array it stands for: the stored byte, or 0
    where the storage has not grown to yet. *)
Definition cell (storage : list Z) (i : nat) : Z := default 0 (storage !! i).

(** [k] calls of [__next__] in a row, as a [for] loop over the tape makes
    them: the bytes they return and the tape they leave. *)
Fixpoint next_n (k : nat) (t : Tape) : outcome (list Z * Tape) :=
  match k with
  | O => Ok ([], t)
  | S k =>
      '(x, t) ← __next__ t;
      '(xs, t) ← next_n k t;
      Ok (x :: xs, t)
  end.

(** Every position on the bracket stack is the position of a [[] in the
    program. *)
Definition stack_on_brackets (self : BfTuringMachine) : Prop :=
  Forall (fun p => 0 <= p /\
                   _storage (_program self) !! Z.to_nat p = Some (ord "["))
         (_bracket_stack self).

(** The bracket stack that goes with a program text read so far: the
    positions of the [[] that the text leaves open, the innermost last.
    A text that leaves none open is balanced; a text that leaves some open
    ends with its innermost open [[] and a balanced text after it. *)
Inductive open_brackets : list Z -> list Z -> Prop :=
| open_none text :
    balanced text -> open_brackets text []
| open_snoc pre body stack :
    open_brackets pre stack -> balanced body ->
    open_brackets (pre ++ ord "[" :: body)
                  (stack ++ [Z.of_nat (length pre)]).

(** The bracket stack of the machine is the one that goes with the part
    of the program before the program cursor. *)
Definition brackets_tracked (self : BfTuringMachine) : Prop :=
  open_brackets
    (take (Z.to_nat (_ptr (_program self))) (_storage (_program self)))
    (_bracket_stack self).

(** ** The tape: growth, reads and writes *)

Lemma zero_extends_refl s : zero_extends s s.
Proof. exists O. by rewrite app_nil_r. Qed.

Lemma zero_extends_trans s1 s2 s3 :
  zero_extends s1 s2 -> zero_extends s2 s3 -> zero_extends s1 s3.
Proof.
  intros [k1 ->] [k2 ->]. exists (k1 + k2)%nat.
  by rewrite <- app_assoc, replicate_add.
Qed.

Lemma zero_extends_length s s' :
  zero_extends s s' -> (length s <= length s')%nat.
Proof. intros [k ->]. rewrite length_app. lia. Qed.

Lemma zero_extends_lookup s s' i x :
  zero_extends s s' -> s !! i = Some x -> s' !! i = Some x.
Proof. intros [k ->] H. by apply lookup_app_l_Some. Qed.

Lemma zero_extends_lookup_new s s' i x :
  zero_extends s s' -> s' !! i = Some x -> (length s <= i)%nat -> x = 0.
Proof.
  intros [k ->] H Hi. rewrite lookup_app_r in H by done.
  apply lookup_replicate in H. tauto.
Qed.

Lemma grow_loop_zero_extends r s p : zero_extends s (grow_loop r s p).
Proof.
  revert s. induction r as [|r IH]; intros s; simpl.
  - apply zero_extends_refl.
  - case_match; [|apply zero_extends_refl].
    eapply zero_extends_trans; [|apply IH].
    by exists (length s + 1)%nat.
Qed.

Lemma grow_loop_exits r s p :
  p < Z.of_nat (r + length s) -> p < Z.of_nat (length (grow_loop r s p)).
Proof.
  revert s. induction r as [|r IH]; intros s H; simpl; [done|].
  case_match eqn:E; [|lia].
  apply IH. rewrite length_app. unfold bytearray. rewrite length_replicate. lia.
Qed.

Lemma grow_zero_extends s p : zero_extends s (grow s p).
Proof. apply grow_loop_zero_extends. Qed.

(** The [while] loop of the setter exits: the cursor is inside the storage. *)
Lemma grow_exits s p : p < Z.of_nat (length (grow s p)).
Proof. apply grow_loop_exits. lia. Qed.

Lemma grow_inside s p : p < Z.of_nat (length s) -> grow s p = s.
Proof. intros H. unfold grow. simpl. case_match; [lia|done]. Qed.

Lemma ptr_set_ok t n :
  0 <= n -> ptr_set t n = Ok {| _storage := grow (_storage t) n; _ptr := n |}.
Proof. intros H. unfold ptr_set. case_match; [lia|done]. Qed.

Lemma ptr_set_inv t n t' :
  ptr_set t n = Ok t' ->
  0 <= n /\ _ptr t' = n /\ _storage t' = grow (_storage t) n.
Proof.
  unfold ptr_set. case_match; [done|]. intros [= <-]. simpl.
  split; [lia|done].
Qed.

Lemma ptr_set_tape_ok t n t' : ptr_set t n = Ok t' -> tape_ok t'.
Proof.
  intros (Hn & Hp & Hs)%ptr_set_inv. unfold tape_ok. rewrite Hp, Hs.
  pose proof (grow_exits (_storage t) n). lia.
Qed.

Lemma getitem_ok b i :
  0 <= i < Z.of_nat (length b) ->
  exists x, b !! Z.to_nat i = Some x /\ getitem b i = Ok x.
Proof.
  intros H. unfold getitem.
  destruct (i <? 0) eqn:E1; [lia|]. rewrite E1.
  destruct (lookup_lt_is_Some_2 b (Z.to_nat i)) as [x Hx]; [lia|].
  exists x. by rewrite Hx.
Qed.

Lemma cur_elem_ok t :
  tape_ok t ->
  exists x, _storage t !! Z.to_nat (_ptr t) = Some x /\ cur_elem t = Ok x.
Proof. apply getitem_ok. Qed.

Lemma cur_elem_lookup t x :
  tape_ok t -> cur_elem t = Ok x -> _storage t !! Z.to_nat (_ptr t) = Some x.
Proof. intros (y & Hy & E)%cur_elem_ok H. congruence. Qed.

Lemma lookup_cur_elem t x :
  0 <= _ptr t -> _storage t !! Z.to_nat (_ptr t) = Some x -> cur_elem t = Ok x.
Proof.
  intros H0 H. destruct (cur_elem_ok t) as (y & Hy & E); [|congruence].
  apply lookup_lt_Some in H. unfold tape_ok. lia.
Qed.

Lemma cur_elem_set_ok t v :
  tape_ok t ->
  cur_elem_set t v =
  Ok {| _storage := <[Z.to_nat (_ptr t) := v mod 256]> (_storage t);
        _ptr := _ptr t |}.
Proof.
  intros H. unfold cur_elem_set, setitem, tape_ok in *.
  destruct (_ptr t <? 0) eqn:E1; [lia|]. rewrite E1.
  destruct (Z.of_nat (length (_storage t)) <=? _ptr t) eqn:E2; [lia|]. done.
Qed.

Lemma cur_elem_after_set t v t' :
  tape_ok t -> cur_elem_set t v = Ok t' ->
  tape_ok t' /\ _ptr t' = _ptr t /\ cur_elem t' = Ok (v mod 256).
Proof.
  intros H. rewrite cur_elem_set_ok by done. intros [= <-].
  unfold tape_ok in *. simpl. rewrite length_insert. repeat split; try lia.
  apply lookup_cur_elem; simpl; [lia|].
  apply list_lookup_insert_eq. lia.
Qed.

(** [__next__] returns the byte under the cursor and steps the cursor. *)
Lemma next_ok t :
  tape_ok t ->
  exists x, _storage t !! Z.to_nat (_ptr t) = Some x /\
    __next__ t = Ok (x, {| _storage := grow (_storage t) (_ptr t + 1);
                           _ptr := _ptr t + 1 |}).
Proof.
  intros H. destruct (cur_elem_ok t H) as (x & Hx & E). exists x.
  split; [done|]. unfold __next__. rewrite E. unbind.
  rewrite ptr_set_ok by (unfold tape_ok in H; lia). done.
Qed.

(** [__next__] never signals the end of the iteration. *)
Lemma next_never_stops t : __next__ t <> Raise StopIteration.
Proof.
  unfold __next__, cur_elem, getitem, ptr_set. unbind.
  repeat case_match; congruence.
Qed.

Example scenario1 : output (run 10 (str "++.") []) = Ok [2].
Proof. vm_compute. reflexivity. Qed.


(** ** Zero initialisation (C4) *)

Lemma read_after_ptr_set t n :
  0 <= n ->
  exists t' x, ptr_set t n = Ok t' /\ cur_elem t' = Ok x /\
    grow (_storage t) n !! Z.to_nat n = Some x.
Proof.
  intros H. rewrite ptr_set_ok by done.
  destruct (cur_elem_ok {| _storage := grow (_storage t) n; _ptr := n |})
    as (x & Hx & E).
  { unfold tape_ok. simpl. pose proof (grow_exits (_storage t) n). lia. }
  eauto.
Qed.

(** C4, as amended: on a new tape every cell reads 0; right after
    [load(data)] the cells at and beyond [len(data)] read 0, and the cells
    below it read the loaded data. *)
Theorem tape_zero_initialised :
  (forall (initial_tape_len : nat) (n : Z), 0 <= n ->
     (t ← ptr_set (Tape__init__ initial_tape_len) n; cur_elem t) = Ok 0) /\
  (forall (t0 : Tape) (data : list Z) (n : Z),
     Z.of_nat (length data) <= n ->
     (t ← load t0 data; t ← ptr_set t n; cur_elem t) = Ok 0) /\
  (forall (t0 : Tape) (data : list Z) (n : Z) (x : Z),
     0 <= n -> data !! Z.to_nat n = Some x ->
     (t ← load t0 data; t ← ptr_set t n; cur_elem t) = Ok x).
Proof.
  split; [|split].
  - intros len n Hn.
    destruct (read_after_ptr_set (Tape__init__ len) n Hn) as (t & x & E1 & E2 & Hx).
    rewrite E1. simpl. rewrite E2. f_equal. simpl in Hx.
    destruct (grow_zero_extends (bytearray len) n) as [k Hk].
    rewrite Hk in Hx. unfold bytearray in Hx.
    rewrite <- replicate_add in Hx. apply lookup_replicate in Hx. tauto.
  - intros t0 data n Hn. unfold load. rewrite ptr_set_ok by done. simpl.
    set (t1 := {| _storage := _; _ptr := 0 |}).
    destruct (read_after_ptr_set t1 n) as (t & x & E1 & E2 & Hx); [lia|].
    rewrite E1. simpl. rewrite E2. f_equal. subst t1. simpl in Hx.
    eapply (zero_extends_lookup_new data); [|exact Hx|lia].
    eapply zero_extends_trans; apply grow_zero_extends.
  - intros t0 data n x Hn Hx. unfold load. rewrite ptr_set_ok by done. simpl.
    set (t1 := {| _storage := _; _ptr := 0 |}).
    destruct (read_after_ptr_set t1 n) as (t & y & E1 & E2 & Hy); [lia|].
    rewrite E1. simpl. rewrite E2. f_equal. subst t1. simpl in Hy.
    assert (grow (grow data 0) n !! Z.to_nat n = Some x) as Hx'; [|congruence].
    eapply zero_extends_lookup; [|exact Hx].
    eapply zero_extends_trans; apply grow_zero_extends.
Qed.

Lemma tape_zero_initialised_witness :
  (t ← ptr_set (Tape__init__ 4096) 5000; cur_elem t) = Ok 0 /\
  (t ← load Tape_ (str "+-"); t ← ptr_set t 2; cur_elem t) = Ok 0 /\
  (t ← load Tape_ (str "+-"); t ← ptr_set t 1; cur_elem t) = Ok (ord "-").
Proof.
  destruct tape_zero_initialised as (H1 & H2 & H3).
  split; [|split].
  - apply H1. lia.
  - apply H2. simpl. lia.
  - apply H3; [lia|reflexivity].
Defined.

(** C4 as stated fails right after a load: the cell under the cursor holds
    the loaded byte. *)
Lemma tape_zero_initialised_counterexample :
  (t ← load Tape_ (str "+"); t ← ptr_set t 0; cur_elem t) = Ok 43 /\
  (t ← load Tape_ (str "+"); t ← ptr_set t 0; cur_elem t) <> Ok 0.
Proof. split; [reflexivity|discriminate]. Qed.

(** ** What every handler keeps *)

Lemma bytes_ok_zero_extends s s' :
  zero_extends s s' -> bytes_ok s -> bytes_ok s'.
Proof.
  intros [k ->] H. apply Forall_app. split; [done|].
  apply Forall_replicate. lia.
Qed.

Lemma program_bytes_ok_zero_extends s s' :
  zero_extends s s' -> program_bytes_ok s -> program_bytes_ok s'.
Proof.
  intros [k ->] H. apply Forall_app. split; [done|].
  apply Forall_replicate. by left.
Qed.

Lemma ptr_set_bytes_ok t n t' :
  ptr_set t n = Ok t' -> bytes_ok (_storage t) -> bytes_ok (_storage t').
Proof.
  intros (_ & _ & ->)%ptr_set_inv. apply bytes_ok_zero_extends, grow_zero_extends.
Qed.

Lemma ptr_set_zero_extends t n t' :
  ptr_set t n = Ok t' -> zero_extends (_storage t) (_storage t').
Proof. intros (_ & _ & ->)%ptr_set_inv. apply grow_zero_extends. Qed.

Lemma cur_elem_set_inv t v t' :
  tape_ok t -> cur_elem_set t v = Ok t' ->
  tape_ok t' /\ _ptr t' = _ptr t /\
  (bytes_ok (_storage t) -> bytes_ok (_storage t')).
Proof.
  intros H E. destruct (cur_elem_after_set t v t' H E) as (H1 & H2 & _).
  split; [done|split; [done|]]. rewrite cur_elem_set_ok in E by done.
  injection E as <-. simpl. intros Hb. apply Forall_insert; [done|].
  apply Z.mod_pos_bound. lia.
Qed.

Lemma next_inv t x t' :
  __next__ t = Ok (x, t') ->
  cur_elem t = Ok x /\ ptr_set t (_ptr t + 1) = Ok t'.
Proof.
  unfold __next__. destruct (cur_elem t); simpl; try done.
  destruct (ptr_set t (_ptr t + 1)); simpl; try done. by intros [= -> ->].
Qed.

Lemma scan_inv fuel p n p' :
  _left_bracket_scan fuel p n = Ok p' ->
  tape_ok p' /\ zero_extends (_storage p) (_storage p').
Proof.
  revert p n. induction fuel as [|fuel IH]; intros p n; simpl; [done|].
  destruct (__next__ p) as [[cmd p1]|e|] eqn:E; [|by destruct e|done].
  apply next_inv in E as [_ E].
  pose proof (ptr_set_zero_extends _ _ _ E) as Hz.
  repeat case_match; intros Hsc;
    try (apply IH in Hsc as [? ?]; split; [done|by eapply zero_extends_trans]).
  split; [by eapply ptr_set_tape_ok|].
  eapply zero_extends_trans; [done|by eapply ptr_set_zero_extends].
Qed.

Lemma dict_get_cmds b h :
  dict_get _bf_cmds b = Ok h ->
  (b = ord ">" /\ h = _shift_data_ptr 1) \/
  (b = ord "<" /\ h = _shift_data_ptr (-1)) \/
  (b = ord "+" /\ h = _add_to_current_byte 1) \/
  (b = ord "-" /\ h = _add_to_current_byte (-1)) \/
  (b = ord "." /\ h = _current_byte_out) \/
  (b = ord "," /\ h = _read_byte_and_store) \/
  (b = ord "[" /\ h = _left_bracket) \/
  (b = ord "]" /\ h = _right_bracket).
Proof.
  unfold _bf_cmds, dict_get.
  repeat (match goal with
          | |- context [b =? ?k] =>
              destruct (Z.eqb_spec b k) as [->|_]; [intros [= <-]; tauto|]
          end).
  done.
Qed.

Lemma dict_get_key b :
  b ∈ keys _bf_cmds -> exists h, dict_get _bf_cmds b = Ok h.
Proof.
  unfold keys, _bf_cmds. simpl. rewrite !elem_of_cons, elem_of_nil.
  intros H. repeat (destruct H as [->|H]; [eexists; reflexivity|]). done.
Qed.

Lemma removelast_Forall {A} (P : A -> Prop) (l : list A) :
  Forall P l -> Forall P (removelast l).
Proof.
  induction 1 as [|x l Hx Hl IH]; simpl; [constructor|].
  destruct l; [constructor|]. by constructor.
Qed.

Lemma pop_inv l l' : pop l = Ok l' -> l' = removelast l /\ l <> [].
Proof. destruct l; simpl; [done|]. by intros [= <-]. Qed.

Lemma top_inv l x : top l = Ok x -> last l = Some x.
Proof. unfold top. destruct (last l); [|done]. by intros [= ->]. Qed.

Lemma last_Forall {A} (P : A -> Prop) (l : list A) x :
  Forall P l -> last l = Some x -> P x.
Proof.
  intros H Hl. rewrite Forall_forall in H. apply H.
  rewrite last_lookup in Hl. by eapply list_elem_of_lookup_2.
Qed.

(** A handler that returns leaves a machine as sound as it found it, and
    the program storage as it was but for zero bytes added at its end. *)
Lemma handler_ok b h fuel self sys self' sys' :
  dict_get _bf_cmds b = Ok h ->
  machine_ok self -> h fuel self sys = Ok (self', sys') ->
  machine_ok self' /\
  zero_extends (_storage (_program self)) (_storage (_program self')).
Proof.
  intros Hh [Hm Hb Hp Hs] H.
  apply dict_get_cmds in Hh as
    [[_ ->]|[[_ ->]|[[_ ->]|[[_ ->]|[[_ ->]|[[_ ->]|[[_ ->]|[_ ->]]]]]]]].
  1,2: unfold _shift_data_ptr in H;
    destruct (ptr_set _ _) as [m| |] eqn:E; simplify_eq/=;
    (split; [|apply zero_extends_refl]); split; simpl; try done;
    [by eapply ptr_set_tape_ok|by eapply ptr_set_bytes_ok].
  1,2: unfold _add_to_current_byte in H;
    destruct (cur_elem _) as [c| |]; simplify_eq/=;
    destruct (cur_elem_set _ _) as [m| |] eqn:E; simplify_eq/=;
    apply cur_elem_set_inv in E as (? & ? & ?); [|done];
    (split; [|apply zero_extends_refl]); split; simpl; auto.
  - unfold _current_byte_out in H.
    destruct (cur_elem _) as [c| |]; simplify_eq/=.
    destruct (to_bytes1 c); simplify_eq/=.
    split; [done|apply zero_extends_refl].
  - unfold _read_byte_and_store, stdin_read1 in H.
    destruct (stdin sys) as [|c rest]; simpl in H;
      destruct (cur_elem_set _ _) as [m| |] eqn:E; simplify_eq/=;
      apply cur_elem_set_inv in E as (? & ? & ?); try done;
      (split; [|apply zero_extends_refl]); split; simpl; auto.
  - unfold _left_bracket in H. simpl in H.
    destruct (cur_elem _) as [c| |]; simplify_eq/=.
    destruct (negb (c =? 0)); simplify_eq/=.
    + split; [|apply zero_extends_refl]. split; simpl; try done.
      apply Forall_app. split; [done|]. apply Forall_singleton.
      unfold tape_ok in Hp. lia.
    + destruct (pop _) as [s| |] eqn:Es; simplify_eq/=.
      apply pop_inv in Es as [-> _]. rewrite removelast_last in H.
      destruct (__next__ _) as [[x p1]| |] eqn:En; simplify_eq/=.
      destruct (_left_bracket_scan _ _ _) as [p2| |] eqn:Esc; simplify_eq/=.
      apply next_inv in En as [_ En]. apply scan_inv in Esc as [? ?].
      split; [by split|].
      eapply zero_extends_trans; [by eapply ptr_set_zero_extends|done].
  - unfold _right_bracket in H.
    destruct (_bracket_stack self) as [|a l] eqn:El; [done|].
    destruct (cur_elem _) as [c| |]; simplify_eq/=.
    destruct (c =? 0).
    + simpl in H. simplify_eq. split; [|apply zero_extends_refl].
      split; simpl; try done. by apply (removelast_Forall _ (a :: l)).
    + destruct (top _) as [t| |] eqn:Et; simplify_eq/=.
      destruct (ptr_set _ _) as [p| |] eqn:E; simplify_eq/=.
      split; [|by eapply ptr_set_zero_extends].
      split; simpl; try done; [by eapply ptr_set_tape_ok|by rewrite El].
Qed.

Lemma round_inv fuel b self sys self' sys' :
  start_program_round fuel b self sys = Ok (self', sys') ->
  exists h self1 p,
    dict_get _bf_cmds b = Ok h /\ h fuel self sys = Ok (self1, sys') /\
    ptr_set (_program self1) (_ptr (_program self1) + 1) = Ok p /\
    self' = with_program self1 p.
Proof.
  unfold start_program_round.
  destruct (dict_get _ _) as [h| |]; simpl; try done.
  destruct (h fuel self sys) as [[self1 sys1]| |] eqn:Eh; simpl; try done.
  destruct (ptr_set _ _) as [p| |] eqn:E; simpl; try done.
  intros [= <- <-]. exists h, self1, p. auto.
Qed.

(** A round of the dispatch loop keeps the machine sound. *)
Lemma round_ok fuel b self sys self' sys' :
  machine_ok self -> start_program_round fuel b self sys = Ok (self', sys') ->
  machine_ok self' /\
  zero_extends (_storage (_program self)) (_storage (_program self')).
Proof.
  intros Hok (h & self1 & p & Hh & H1 & Hp & ->)%round_inv.
  destruct (handler_ok _ _ _ _ _ _ _ Hh Hok H1) as [[] Hz].
  split.
  - split; simpl; try done. by eapply ptr_set_tape_ok.
  - eapply zero_extends_trans; [done|by eapply ptr_set_zero_extends].
Qed.

(** ** What a handler can raise *)

Lemma scan_no_raise fuel p n e :
  tape_ok p -> _left_bracket_scan fuel p n <> Raise e.
Proof.
  revert p n. induction fuel as [|fuel IH]; intros p n Hp; simpl; [done|].
  destruct (next_ok p Hp) as (x & _ & ->).
  assert (tape_ok {| _storage := grow (_storage p) (_ptr p + 1);
                     _ptr := _ptr p + 1 |}) as Hp'.
  { eapply (ptr_set_tape_ok p (_ptr p + 1)). apply ptr_set_ok.
    unfold tape_ok in Hp. lia. }
  repeat case_match; try by apply IH.
  simpl. rewrite ptr_set_ok; [done|]. unfold tape_ok in Hp. lia.
Qed.

Lemma to_bytes1_ok c : 0 <= c < 256 -> to_bytes1 c = Ok [c].
Proof. intros H. unfold to_bytes1. repeat case_match; try lia. done. Qed.

Lemma cur_elem_byte t c :
  tape_ok t -> bytes_ok (_storage t) -> cur_elem t = Ok c -> 0 <= c < 256.
Proof.
  intros Ht Hb Hc%cur_elem_lookup; [|done].
  unfold bytes_ok in Hb. rewrite Forall_lookup in Hb. by eapply Hb.
Qed.

Lemma pop_snoc l x : pop (l ++ [x]) = Ok l.
Proof.
  unfold pop. rewrite removelast_last. destruct l; reflexivity.
Qed.

(** On a sound machine only two things can go wrong in a handler: [<] at
    cell 0, and []] with an empty bracket stack. *)
Lemma handler_raises b h fuel self sys e :
  dict_get _bf_cmds b = Ok h ->
  machine_ok self -> h fuel self sys = Raise e ->
  (b = ord "<" /\ _ptr (_memory self) = 0 /\
   e = IndexError "Tried to set tape pointer < 0") \/
  (b = ord "]" /\ _bracket_stack self = [] /\
   e = BrainfuckSyntaxError "Unmatched ]").
Proof.
  intros Hh [Hm Hb Hp Hs] H.
  destruct (cur_elem_ok _ Hm) as (c & Hc & Ec).
  pose proof (cur_elem_byte _ _ Hm Hb Ec) as Hcb.
  apply dict_get_cmds in Hh as
    [[_ ->]|[[-> ->]|[[_ ->]|[[_ ->]|[[_ ->]|[[_ ->]|[[_ ->]|[-> ->]]]]]]]].
  - unfold _shift_data_ptr in H. rewrite ptr_set_ok in H; [done|].
    unfold tape_ok in Hm. lia.
  - left. unfold _shift_data_ptr, ptr_set in H.
    destruct (Z.ltb_spec (_ptr (_memory self) + -1) 0); simplify_eq/=.
    unfold tape_ok in Hm. split; [done|]. split; [lia|done].
  - unfold _add_to_current_byte in H. rewrite Ec in H. simpl in H.
    by rewrite cur_elem_set_ok in H.
  - unfold _add_to_current_byte in H. rewrite Ec in H. simpl in H.
    by rewrite cur_elem_set_ok in H.
  - unfold _current_byte_out in H. rewrite Ec in H. simpl in H.
    by rewrite to_bytes1_ok in H.
  - unfold _read_byte_and_store, stdin_read1 in H.
    destruct (stdin sys); simpl in H; by rewrite cur_elem_set_ok in H.
  - unfold _left_bracket in H. simpl in H. rewrite Ec in H. simpl in H.
    destruct (negb (c =? 0)); [done|].
    rewrite pop_snoc in H. simpl in H.
    destruct (next_ok _ Hp) as (x & _ & En). rewrite En in H. simpl in H.
    destruct (_left_bracket_scan _ _ _) eqn:Esc; simplify_eq/=.
    apply scan_no_raise in Esc; [done|].
    eapply (ptr_set_tape_ok (_program self) (_ptr (_program self) + 1)).
    apply ptr_set_ok. unfold tape_ok in Hp. lia.
  - unfold _right_bracket in H.
    destruct (_bracket_stack self) as [|a l] eqn:El.
    { right. by simplify_eq. }
    rewrite Ec in H. simpl in H. destruct (c =? 0); [done|].
    unfold top in H. destruct (last (a :: l)) as [t|] eqn:Et.
    + simpl in H. rewrite ptr_set_ok in H; [done|].
      by apply (last_Forall _ _ _ Hs Et).
    + by apply last_None in Et.
Qed.

Lemma round_raises fuel b self sys e :
  machine_ok self -> start_program_round fuel b self sys = Raise e ->
((b ∉ keys _bf_cmds) /\ e = KeyError b) \/
  (b = ord "<" /\ _ptr (_memory self) = 0 /\
   e = IndexError "Tried to set tape pointer < 0") \/
  (b = ord "]" /\ _bracket_stack self = [] /\
   e = BrainfuckSyntaxError "Unmatched ]").
Proof.
  intros Hok. unfold start_program_round.
  destruct (dict_get _bf_cmds b) as [h|e'|] eqn:Hh; simpl; [| |done].
  - destruct (h fuel self sys) as [[self1 sys1]|e'|] eqn:E; simpl; [| |done].
    + destruct (handler_ok _ _ _ _ _ _ _ Hh Hok E) as [[_ _ Hp _] _].
      rewrite ptr_set_ok; [done|]. unfold tape_ok in Hp. lia.
    + intros [= ->]. right. by eapply handler_raises.
  - intros [= ->]. left. split.
    + intros [h Hk]%dict_get_key. congruence.
    + revert Hh. unfold _bf_cmds, dict_get. repeat case_match; congruence.
Qed.

(** ** The states of a run are sound *)

Lemma to_load_of_spec program :
  to_load_of program = filter (fun c => c ∈ keys _bf_cmds) program.
Proof.
  unfold to_load_of.
  assert (forall acc,
    fold_left (fun to_load c =>
      if negb (bool_decide (c ∈ keys _bf_cmds)) then to_load
      else to_load ++ [c]) program acc
    = acc ++ filter (fun c => c ∈ keys _bf_cmds) program) as H; [|apply H].
  induction program as [|c l IH]; intros acc; cbn [fold_left].
  - by rewrite app_nil_r.
  - rewrite IH, filter_cons.
    destruct (decide (c ∈ keys _bf_cmds)) as [Hc|Hc].
    + rewrite bool_decide_true by done. simpl. by rewrite <- app_assoc.
    + by rewrite bool_decide_false by done.
Qed.

Lemma load_inv t data t' :
  load t data = Ok t' -> _ptr t' = 0 /\ _storage t' = grow data 0.
Proof. intros (_ & ? & ?)%ptr_set_inv. done. Qed.

Lemma load_program_ok self program :
  exists p, load (_program self) (to_load_of program) = Ok p /\
    load_program self program = Ok (with_program self p).
Proof.
  unfold load_program, load. rewrite ptr_set_ok by done. eauto.
Qed.

Lemma loaded_ok source self :
  load_program BfTuringMachine_ source = Ok self ->
  machine_ok self /\ program_bytes_ok (_storage (_program self)).
Proof.
  destruct (load_program_ok BfTuringMachine_ source) as (p & Hp & ->).
  intros [= <-]. split.
  - split; simpl; [| |by eapply ptr_set_tape_ok|constructor].
    + unfold tape_ok. simpl. lia.
    + apply Forall_replicate. lia.
  - simpl. apply load_inv in Hp as [_ ->].
    eapply program_bytes_ok_zero_extends; [apply grow_zero_extends|].
    rewrite to_load_of_spec. apply Forall_forall.
    intros x Hx%list_elem_of_filter. tauto.
Qed.

Lemma reachable_ok source input self sys :
  reachable source input self sys ->
  machine_ok self /\ program_bytes_ok (_storage (_program self)).
Proof.
  induction 1 as [self H|self sys b fuel self' sys' _ [IH1 IH2] _ _ H].
  - by eapply loaded_ok.
  - destruct (round_ok _ _ _ _ _ _ IH1 H) as [? ?]. split; [done|].
    by eapply program_bytes_ok_zero_extends.
Qed.

Lemma reachable_program source input self sys :
  reachable source input self sys ->
  zero_extends (to_load_of source) (_storage (_program self)).
Proof.
  induction 1 as [self H|self sys b fuel self' sys' Hr IH _ _ H].
  - destruct (load_program_ok BfTuringMachine_ source) as (p & Hp & E).
    rewrite E in H. injection H as <-. simpl.
    apply load_inv in Hp as [_ ->]. apply grow_zero_extends.
  - apply reachable_ok in Hr as [Hok _].
    destruct (round_ok _ _ _ _ _ _ Hok H) as [_ ?].
    by eapply zero_extends_trans.
Qed.

(** ** The dispatch loop *)

Lemma start_program_S fuel self sys b :
  cur_elem (_program self) = Ok b -> b <> 0 ->
  start_program (S fuel) self sys =
  ('(self, sys) ← start_program_round fuel b self sys;
   start_program fuel self sys).
Proof.
  intros E Hb. cbn [start_program]. rewrite E. simpl.
  destruct (Z.eqb_spec b 0); [done|]. done.
Qed.

Lemma start_program_halt fuel self sys :
  cur_elem (_program self) = Ok 0 ->
  start_program (S fuel) self sys = Ok (self, sys).
Proof. intros E. cbn [start_program]. by rewrite E. Qed.

(** Whatever a run reaches, it reaches through the rounds of the loop. *)
Lemma start_program_reachable source input fuel self sys self' sys' :
  reachable source input self sys ->
  start_program fuel self sys = Ok (self', sys') ->
  reachable source input self' sys' /\ cur_elem (_program self') = Ok 0.
Proof.
  revert self sys. induction fuel as [|fuel IH]; intros self sys Hr; [done|].
  cbn [start_program].
  destruct (cur_elem (_program self)) as [b| |] eqn:Eb; simpl; try done.
  destruct (Z.eqb_spec b 0) as [->|Hb]; simpl.
  - by intros [= <- <-].
  - destruct (start_program_round fuel b self sys) as [[self1 sys1]| |] eqn:E;
      simpl; try done.
    apply IH. by eapply reachable_round.
Qed.

(** A run raises only for [<] at cell 0 and for []] on an empty bracket
    stack. *)
Lemma start_program_raises source input fuel self sys e :
  reachable source input self sys ->
  start_program fuel self sys = Raise e ->
  e = IndexError "Tried to set tape pointer < 0" \/
  e = BrainfuckSyntaxError "Unmatched ]".
Proof.
  revert self sys. induction fuel as [|fuel IH]; intros self sys Hr; [done|].
  cbn [start_program].
  destruct (reachable_ok _ _ _ _ Hr) as [Hok Hbytes].
  destruct (cur_elem_ok _ (program_ok _ Hok)) as (b & Hb & ->). simpl.
  destruct (Z.eqb_spec b 0) as [->|Hb0]; simpl; [done|].
  destruct (start_program_round fuel b self sys) as [[self1 sys1]|e'|] eqn:E;
    simpl; try done.
  - apply IH. by eapply reachable_round; [| apply lookup_cur_elem| |];
      [done|apply (program_ok _ Hok)|done..].
  - intros [= ->].
    apply round_raises in E as [[Hk _]|[(_ & _ & ->)|(_ & _ & ->)]]; auto.
    exfalso. unfold program_bytes_ok in Hbytes.
    rewrite Forall_lookup in Hbytes.
    destruct (Hbytes _ _ Hb); done.
Qed.

Lemma run_unfold fuel source input :
  run fuel source input =
  start_program fuel
    (with_program BfTuringMachine_
       {| _storage := grow (to_load_of source) 0; _ptr := 0 |})
    {| stdin := input; stdout := [] |}.
Proof. reflexivity. Qed.

Lemma run_loaded source :
  load_program BfTuringMachine_ source =
  Ok (with_program BfTuringMachine_
        {| _storage := grow (to_load_of source) 0; _ptr := 0 |}).
Proof. reflexivity. Qed.

(** ** Negative cursor positions (C7) *)

(** C7: setting a cursor to a negative value raises IndexError; a setter
    that returns leaves a cursor that is not negative, as do [__next__],
    [load] and the [cur_elem] setter, so that in every state of a run both
    cursors are at or above 0; and [<] at cell 0 raises the IndexError. *)
Theorem cursor_never_negative :
  (forall (t : Tape) (n : Z), n < 0 ->
     ptr_set t n = Raise (IndexError "Tried to set tape pointer < 0")) /\
  (forall (t : Tape) (n : Z) (t' : Tape), ptr_set t n = Ok t' -> 0 <= _ptr t') /\
  (forall (t : Tape) (x : Z) (t' : Tape),
     __next__ t = Ok (x, t') -> 0 <= _ptr t') /\
  (forall (t : Tape) (data : list Z) (t' : Tape),
     load t data = Ok t' -> 0 <= _ptr t') /\
  (forall (t : Tape) (v : Z) (t' : Tape),
     cur_elem_set t v = Ok t' -> _ptr t' = _ptr t) /\
  (forall (source input : list Z) (self : BfTuringMachine) (sys : Sys),
     reachable source input self sys ->
     0 <= _ptr (_memory self) /\ 0 <= _ptr (_program self)) /\
  (forall (fuel : nat) (self : BfTuringMachine) (sys : Sys),
     _ptr (_memory self) = 0 ->
     start_program_round fuel (ord "<") self sys =
     Raise (IndexError "Tried to set tape pointer < 0")) /\
  (forall (fuel : nat) (input : list Z),
     run (S fuel) (str "<") input =
     Raise (IndexError "Tried to set tape pointer < 0")).
Proof.
  assert (forall fuel self sys, _ptr (_memory self) = 0 ->
     start_program_round fuel (ord "<") self sys =
     Raise (IndexError "Tried to set tape pointer < 0")) as Hlt.
  { intros fuel self sys H. unfold start_program_round. simpl.
    unfold _shift_data_ptr. rewrite H. reflexivity. }
  repeat apply conj.
  - intros t n H. unfold ptr_set. destruct (Z.ltb_spec n 0); [done|lia].
  - intros t n t' H. apply ptr_set_tape_ok in H. unfold tape_ok in H. lia.
  - intros t x t' [_ H]%next_inv.
    apply ptr_set_tape_ok in H. unfold tape_ok in H. lia.
  - intros t data t' [-> _]%load_inv. done.
  - intros t v t'. unfold cur_elem_set.
    destruct (setitem _ _ _); simpl; try done. by intros [= <-].
  - intros source input self sys [[Hm _ Hp _] _]%reachable_ok.
    unfold tape_ok in *. lia.
  - exact Hlt.
  - intros fuel input. rewrite run_unfold.
    rewrite (start_program_S _ _ _ (ord "<")); [|reflexivity|done].
    by rewrite Hlt.
Qed.

Lemma cursor_never_negative_witness :
  ptr_set Tape_ (-1) = Raise (IndexError "Tried to set tape pointer < 0") /\
  0 <= _ptr {| _storage := grow (_storage Tape_) 7; _ptr := 7 |} /\
  start_program_round 0 (ord "<") BfTuringMachine_ {| stdin := []; stdout := [] |}
  = Raise (IndexError "Tried to set tape pointer < 0").
Proof.
  destruct cursor_never_negative as (H1 & H2 & _ & _ & _ & _ & H7 & _).
  split; [|split].
  - apply H1. lia.
  - apply (H2 Tape_ 7). reflexivity.
  - apply H7. reflexivity.
Defined.

(** ** The closing bracket on an empty stack (C8) *)

(** C8: []] with an empty bracket stack raises
    BrainfuckSyntaxError("Unmatched ]"), in the handler, in a round of the
    dispatch loop and for the program []]; on a sound machine with a
    stack that is not empty, []] raises nothing. *)
Theorem right_bracket_unmatched :
  (forall (fuel : nat) (self : BfTuringMachine) (sys : Sys),
     _bracket_stack self = [] ->
     _right_bracket fuel self sys = Raise (BrainfuckSyntaxError "Unmatched ]") /\
     start_program_round fuel (ord "]") self sys =
     Raise (BrainfuckSyntaxError "Unmatched ]")) /\
  (forall (fuel : nat) (input : list Z),
     run (S fuel) (str "]") input = Raise (BrainfuckSyntaxError "Unmatched ]")) /\
  (forall (fuel : nat) (self : BfTuringMachine) (sys : Sys) (e : exn),
     machine_ok self -> _bracket_stack self <> [] ->
     _right_bracket fuel self sys <> Raise e /\
     start_program_round fuel (ord "]") self sys <> Raise e).
Proof.
  assert (forall fuel self sys, _bracket_stack self = [] ->
     _right_bracket fuel self sys = Raise (BrainfuckSyntaxError "Unmatched ]") /\
     start_program_round fuel (ord "]") self sys =
     Raise (BrainfuckSyntaxError "Unmatched ]")) as Hrb.
  { intros fuel self sys H. unfold start_program_round. simpl.
    unfold _right_bracket. rewrite H. done. }
  split; [exact Hrb|split].
  - intros fuel input. rewrite run_unfold.
    rewrite (start_program_S _ _ _ (ord "]")); [|reflexivity|done].
    by destruct (Hrb fuel
      (with_program BfTuringMachine_
         {| _storage := grow (to_load_of (str "]")) 0; _ptr := 0 |})
      {| stdin := input; stdout := [] |}) as [_ ->].
  - intros fuel self sys e Hok Hs. split.
    + intros H.
      apply (handler_raises (ord "]")) in H as [(? & _)|(_ & ? & _)]; done.
    + intros H. apply round_raises in H as [[Hk _]|[(? & _)|(_ & ? & _)]];
        try done.
      apply Hk. by apply (bool_decide_unpack _).
Qed.

Lemma right_bracket_unmatched_witness :
  _right_bracket O BfTuringMachine_ {| stdin := []; stdout := [] |}
    = Raise (BrainfuckSyntaxError "Unmatched ]") /\
  forall e,
    _right_bracket O (with_bracket_stack BfTuringMachine_ [0])
      {| stdin := []; stdout := [] |} <> Raise e.
Proof.
  destruct right_bracket_unmatched as (H1 & _ & H3). split.
  - apply H1. reflexivity.
  - intros e. apply H3; [|done].
    split; simpl; [unfold tape_ok; simpl; lia|apply Forall_replicate; lia
                  |unfold tape_ok; simpl; lia|].
    apply Forall_singleton. lia.
Defined.

(** ** The handler lookup never fails (C10) *)

(** C10: the program tape holds instruction bytes and zero fill after
    [load_program]; in every state of a run it is the loaded text followed
    by zero bytes, and a byte under the program cursor that is not 0 is a
    key of [_bf_cmds], so that the lookup returns a handler; a run never
    raises KeyError. *)
Theorem dispatch_lookup_succeeds :
  (forall (self self' : BfTuringMachine) (source : list Z),
     load_program self source = Ok self' ->
     program_bytes_ok (_storage (_program self'))) /\
  (forall (source input : list Z) (self : BfTuringMachine) (sys : Sys),
     reachable source input self sys ->
     zero_extends (to_load_of source) (_storage (_program self)) /\
     program_bytes_ok (_storage (_program self)) /\
     exists b, cur_elem (_program self) = Ok b /\
       (b <> 0 -> b ∈ keys _bf_cmds /\ exists h, dict_get _bf_cmds b = Ok h)) /\
  (forall (fuel : nat) (b : Z) (self self' : BfTuringMachine) (sys sys' : Sys),
     machine_ok self ->
     start_program_round fuel b self sys = Ok (self', sys') ->
     zero_extends (_storage (_program self)) (_storage (_program self'))) /\
  (forall (fuel : nat) (source input : list Z) (k : Z),
     run fuel source input <> Raise (KeyError k)).
Proof.
  repeat apply conj.
  - intros self self' source.
    destruct (load_program_ok self source) as (p & Hp & ->).
    intros [= <-]. simpl. apply load_inv in Hp as [_ ->].
    eapply program_bytes_ok_zero_extends; [apply grow_zero_extends|].
    rewrite to_load_of_spec. apply Forall_forall.
    intros x Hx%list_elem_of_filter. tauto.
  - intros source input self sys Hr.
    split; [by eapply reachable_program|].
    destruct (reachable_ok _ _ _ _ Hr) as [Hok Hbytes]. split; [done|].
    destruct (cur_elem_ok _ (program_ok _ Hok)) as (b & Hb & E).
    exists b. split; [done|]. intros Hb0.
    unfold program_bytes_ok in Hbytes. rewrite Forall_lookup in Hbytes.
    destruct (Hbytes _ _ Hb) as [?|Hk]; [done|].
    split; [done|by apply dict_get_key].
  - intros fuel b self self' sys sys' Hok H.
    by destruct (round_ok _ _ _ _ _ _ Hok H).
  - intros fuel source input k H. rewrite run_unfold in H.
    eapply start_program_raises in H as [?|?]; [done|done|].
    apply reachable_loaded, run_loaded.
Qed.

Lemma dispatch_lookup_succeeds_witness :
  program_bytes_ok
    (_storage (_program
       (with_program BfTuringMachine_
          {| _storage := grow (to_load_of (str "a+b]")) 0; _ptr := 0 |}))) /\
  zero_extends (_storage Tape_)
    (_storage (_program
       (with_program (with_memory BfTuringMachine_
          {| _storage := grow (_storage Tape_) 1; _ptr := 1 |})
          {| _storage := grow (_storage Tape_) 1; _ptr := 1 |}))).
Proof.
  destruct dispatch_lookup_succeeds as (H1 & _ & H3 & _). split.
  - apply (H1 BfTuringMachine_ _ (str "a+b]")). reflexivity.
  - apply (H3 O (ord ">") BfTuringMachine_ _
             {| stdin := []; stdout := [] |} {| stdin := []; stdout := [] |}).
    + split; simpl; [unfold tape_ok; simpl; lia|apply Forall_replicate; lia
                    |unfold tape_ok; simpl; lia|constructor].
    + reflexivity.
Defined.

(** ** The opening bracket without a close (C1) *)

(** A scan that has no []] ahead of it goes on for as long as it is given
    steps: the zero fill it reaches holds no []] either. *)
Lemma scan_no_close_diverges fuel p n :
  tape_ok p ->
  (forall i x, (Z.to_nat (_ptr p) <= i)%nat -> _storage p !! i = Some x ->
               x <> ord "]") ->
  _left_bracket_scan fuel p n = Timeout.
Proof.
  revert p n. induction fuel as [|fuel IH]; intros p n Hp Hz; simpl; [done|].
  destruct (next_ok p Hp) as (x & Hx & ->).
  assert (x <> ord "]") as Hne by (by eapply Hz).
  set (p1 := {| _storage := grow (_storage p) (_ptr p + 1);
                _ptr := _ptr p + 1 |}).
  assert (forall m, _left_bracket_scan fuel p1 m = Timeout) as Hrec.
  { intros m. apply IH.
    - eapply (ptr_set_tape_ok p (_ptr p + 1)). apply ptr_set_ok.
      unfold tape_ok in Hp. lia.
    - simpl. intros i y Hi Hy.
      destruct (decide (i < length (_storage p))%nat) as [Hlt|Hge].
      + destruct (lookup_lt_is_Some_2 (_storage p) i Hlt) as [z Hz'].
        pose proof (zero_extends_lookup _ _ _ _
                      (grow_zero_extends (_storage p) (_ptr p + 1)) Hz') as Hy'.
        assert (y = z) as -> by congruence.
        eapply Hz; [|done]. lia.
      + assert (y = 0) as ->; [|done].
        eapply zero_extends_lookup_new; [apply grow_zero_extends|done|lia]. }
  case_bool_decide as Hin; simpl; [|apply Hrec].
  destruct (Z.eqb_spec x (ord "[")) as [->|Hno]; [apply Hrec|].
  exfalso. simpl in Hin. rewrite !elem_of_cons, elem_of_nil in Hin.
  destruct Hin as [?|[?|[]]]; done.
Qed.

Lemma next_raises t e : __next__ t = Raise e -> exists m, e = IndexError m.
Proof.
  unfold __next__, cur_elem, getitem, ptr_set. unbind.
  repeat case_match; intros; simplify_eq; eauto.
Qed.

Lemma scan_never_unmatched fuel p n msg :
  _left_bracket_scan fuel p n <> Raise (BrainfuckSyntaxError msg).
Proof.
  revert p n. induction fuel as [|fuel IH]; intros p n; simpl; [done|].
  destruct (__next__ p) as [[cmd p1]|e|] eqn:E; [| |done].
  - repeat case_match; try apply IH.
    unfold ptr_set. case_match; done.
  - apply next_raises in E as [m ->]. done.
Qed.

(** C1 fails on the code: the program [[] run on a new machine never
    returns and never raises, whatever the number of steps it is given;
    the scan of [_left_bracket] never raises BrainfuckSyntaxError at all,
    and no run raises BrainfuckSyntaxError("Unmatched ["). *)
Theorem left_bracket_unmatched_never_raised :
  (forall (fuel : nat) (input : list Z), run fuel (str "[") input = Timeout) /\
  (forall (fuel : nat) (p : Tape) (n : Z) (msg : string),
     _left_bracket_scan fuel p n <> Raise (BrainfuckSyntaxError msg)) /\
  (forall (fuel : nat) (source input : list Z),
     run fuel source input <> Raise (BrainfuckSyntaxError "Unmatched [")).
Proof.
  split; [|split].
  - intros fuel input. rewrite run_unfold. destruct fuel as [|fuel]; [done|].
    rewrite (start_program_S _ _ _ (ord "[")); [|reflexivity|done].
    unfold start_program_round. simpl dict_get. simpl.
    unfold _left_bracket.
    change (cur_elem _) with (Ok 0 : outcome Z). simpl.
    rewrite scan_no_close_diverges; [done| |].
    + unfold tape_ok. simpl. lia.
    + simpl. intros [|[|[|i]]] x Hi; simpl; try lia; by intros [= <-].
  - apply scan_never_unmatched.
  - intros fuel source input H. rewrite run_unfold in H.
    eapply start_program_raises in H as [?|?]; [done|done|].
    apply reachable_loaded, run_loaded.
Qed.

(** ** More steps change no result *)

Lemma scan_S fuel p n :
  _left_bracket_scan (S fuel) p n =
  match __next__ p with
  | Raise StopIteration => Raise (BrainfuckSyntaxError "Unmatched [")
  | Raise e => Raise e
  | Timeout => Timeout
  | Ok (cmd, program) =>
      if negb (bool_decide (cmd ∈ str "[]"))
      then _left_bracket_scan fuel program n
      else if cmd =? ord "["
      then _left_bracket_scan fuel program (n + 1)
      else if negb (n =? 0)
      then _left_bracket_scan fuel program (n - 1)
      else ptr_set program (_ptr program - 1)
  end.
Proof. reflexivity. Qed.

Lemma scan_mono fuel p n r :
  _left_bracket_scan fuel p n = r -> r <> Timeout ->
  _left_bracket_scan (S fuel) p n = r.
Proof.
  revert p n. induction fuel as [|fuel IH]; intros p n H Hr.
  { simpl in H. congruence. }
  revert H. rewrite (scan_S (S fuel)), (scan_S fuel).
  destruct (__next__ p) as [[cmd p1]|e|]; [|done..].
  repeat case_match; try done; intros Hsc; by apply IH.
Qed.

Lemma handler_mono b h fuel self sys r :
  dict_get _bf_cmds b = Ok h ->
  h fuel self sys = r -> r <> Timeout -> h (S fuel) self sys = r.
Proof.
  intros Hh H Hr.
  apply dict_get_cmds in Hh as
    [[_ ->]|[[_ ->]|[[_ ->]|[[_ ->]|[[_ ->]|[[_ ->]|[[_ ->]|[_ ->]]]]]]]];
    try done.
  revert H. unfold _left_bracket.
  destruct (cur_elem _) as [c| |]; cbn -[_left_bracket_scan]; try done.
  destruct (negb (c =? 0)); [done|].
  destruct (pop _); cbn -[_left_bracket_scan]; try done.
  destruct (__next__ _) as [[x p1]| |]; cbn -[_left_bracket_scan]; try done.
  destruct (_left_bracket_scan fuel p1 0) as [p2|e|] eqn:E;
    cbn -[_left_bracket_scan].
  - by rewrite (scan_mono _ _ _ _ E).
  - by rewrite (scan_mono _ _ _ _ E).
  - intros <-. done.
Qed.

Lemma round_mono fuel b self sys r :
  start_program_round fuel b self sys = r -> r <> Timeout ->
  start_program_round (S fuel) b self sys = r.
Proof.
  unfold start_program_round.
  destruct (dict_get _bf_cmds b) as [h| |] eqn:Hh; simpl; try done.
  destruct (h fuel self sys) as [[self1 sys1]|e|] eqn:E; simpl.
  - by rewrite (handler_mono _ _ _ _ _ _ Hh E).
  - by rewrite (handler_mono _ _ _ _ _ _ Hh E).
  - intros <-. done.
Qed.

Lemma start_program_unfold fuel self sys :
  start_program (S fuel) self sys =
  (b ← cur_elem (_program self);
   if negb (b =? 0)
   then '(self, sys) ← start_program_round fuel b self sys;
        start_program fuel self sys
   else Ok (self, sys)).
Proof. reflexivity. Qed.

Lemma start_program_mono_S fuel self sys r :
  start_program fuel self sys = r -> r <> Timeout ->
  start_program (S fuel) self sys = r.
Proof.
  revert self sys. induction fuel as [|fuel IH]; intros self sys H Hr.
  { simpl in H. congruence. }
  revert H. rewrite (start_program_unfold (S fuel)), (start_program_unfold fuel).
  destruct (cur_elem _) as [b| |]; cbn -[start_program start_program_round]; try done.
  destruct (negb (b =? 0)); [|done].
  destruct (start_program_round fuel b self sys) as [[self1 sys1]|e|] eqn:E;
    cbn -[start_program start_program_round].
  - rewrite (round_mono _ _ _ _ _ E) by done. cbn -[start_program start_program_round].
    intros H. by apply IH.
  - by rewrite (round_mono _ _ _ _ _ E).
  - intros <-. done.
Qed.

(** A run that returned or raised does the same with any larger budget. *)
Lemma start_program_mono fuel fuel' self sys r :
  (fuel <= fuel')%nat ->
  start_program fuel self sys = r -> r <> Timeout ->
  start_program fuel' self sys = r.
Proof.
  induction 1 as [|fuel' _ IH]; [done|].
  intros H Hr. apply start_program_mono_S; auto.
Qed.

(** ** The countdown program (C5) *)

(** C5: the program [,[.-]] run on a new machine with the one input byte 3
    returns, within 12 rounds of the dispatch loop and for every larger
    budget, having written the bytes 3, 2, 1 in that order and nothing
    else, with the input used up, the cell back at 0 and the bracket stack
    empty. *)
Theorem countdown_outputs_3_2_1 :
  forall fuel : nat, (12 <= fuel)%nat ->
  exists self' : BfTuringMachine,
    run fuel (str ",[.-]") [3] = Ok (self', {| stdin := []; stdout := [3; 2; 1] |}) /\
    cur_elem (_memory self') = Ok 0 /\
    _bracket_stack self' = [].
Proof.
  intros fuel Hfuel.
  exists {| _memory := Tape_;
            _program := {| _storage := str ",[.-]" ++ bytearray 6; _ptr := 5 |};
            _bracket_stack := [] |}.
  split; [|split; reflexivity].
  rewrite run_unfold. eapply (start_program_mono 12); [done| |done].
  vm_compute. reflexivity.
Qed.

Lemma countdown_outputs_3_2_1_witness :
  exists self' : BfTuringMachine,
    run 12 (str ",[.-]") [3] = Ok (self', {| stdin := []; stdout := [3; 2; 1] |}) /\
    cur_elem (_memory self') = Ok 0 /\
    _bracket_stack self' = [].
Proof. apply countdown_outputs_3_2_1. lia. Defined.

Example countdown_needs_12_rounds : run 11 (str ",[.-]") [3] = Timeout.
Proof. vm_compute. reflexivity. Qed.

(** ** Wrap-around of [+] and [-] (C6) *)

Lemma add_to_current_byte_ok n fuel self sys b :
  tape_ok (_memory self) -> cur_elem (_memory self) = Ok b ->
  exists m,
    _add_to_current_byte n fuel self sys = Ok (with_memory self m, sys) /\
    tape_ok m /\ _ptr m = _ptr (_memory self) /\
    cur_elem m = Ok ((b + n) mod 256) /\
    _storage m = <[Z.to_nat (_ptr (_memory self)) := (b + n) mod 256]>
                   (_storage (_memory self)).
Proof.
  intros Hm Eb. unfold _add_to_current_byte. rewrite Eb. simpl.
  destruct (cur_elem_set (_memory self) (b + n)) as [m| |] eqn:E;
    rewrite cur_elem_set_ok in E by done; simplify_eq.
  eexists. split; [reflexivity|].
  destruct (cur_elem_after_set (_memory self) (b + n) _ Hm
              (cur_elem_set_ok _ _ Hm)) as (? & ? & ?).
  done.
Qed.

Lemma reads_step p c ops :
  reads p (c :: ops) ->
  cur_elem p = Ok c /\
  exists p', ptr_set p (_ptr p + 1) = Ok p' /\ reads p' ops.
Proof.
  intros [Hp (pre & zs & Hs & Hptr & Hz)]. split.
  - apply lookup_cur_elem; [unfold tape_ok in Hp; lia|].
    rewrite Hs, Hptr, Nat2Z.id, lookup_app_r by done.
    by rewrite Nat.sub_diag.
  - rewrite ptr_set_ok by (unfold tape_ok in Hp; lia).
    eexists. split; [reflexivity|]. split.
    + eapply (ptr_set_tape_ok p (_ptr p + 1)). apply ptr_set_ok.
      unfold tape_ok in Hp. lia.
    + simpl. destruct (grow_zero_extends (_storage p) (_ptr p + 1)) as [k ->].
      exists (pre ++ [c]), (zs ++ replicate k 0). split; [|split].
      * rewrite Hs. by rewrite <- !app_assoc.
      * rewrite length_app. simpl. lia.
      * apply Forall_app. split; [done|]. by apply Forall_replicate.
Qed.

Lemma reads_end p : reads p [] -> cur_elem p = Ok 0.
Proof.
  intros [Hp (pre & zs & Hs & Hptr & Hz)].
  destruct (cur_elem_ok p Hp) as (x & Hx & ->). f_equal.
  rewrite Hs, Hptr, Nat2Z.id, lookup_app_r in Hx by done.
  rewrite Nat.sub_diag in Hx. simpl in Hx.
  rewrite Forall_lookup in Hz. by eapply Hz.
Qed.

Lemma reads_loaded self source self' :
  load_program self source = Ok self' ->
  reads (_program self') (to_load_of source) /\
  _memory self' = _memory self /\ _bracket_stack self' = _bracket_stack self.
Proof.
  destruct (load_program_ok self source) as (p & Hp & ->). intros [= <-].
  simpl. split; [|done]. split; [by eapply ptr_set_tape_ok|].
  apply load_inv in Hp as [Hptr Hs].
  destruct (grow_zero_extends (to_load_of source) 0) as [k Hk].
  exists [], (replicate k 0). rewrite Hs, Hk. simpl. split; [done|].
  split; [done|]. by apply Forall_replicate.
Qed.

Lemma count_cons c x l :
  count c (x :: l) = (if decide (x = c) then 1 else 0) + count c l.
Proof.
  unfold count. rewrite filter_cons. case_decide; simpl length; lia.
Qed.

Lemma filter_all {A} (P : A -> Prop) `{forall x, Decision (P x)} (l : list A) :
  Forall P l -> filter P l = l.
Proof.
  induction 1 as [|x l Hx Hl IH]; [done|].
  by rewrite filter_cons_True, IH.
Qed.

(** A text of [+] and [-] only runs to its end and leaves the net count
    in the cell, modulo 256. *)
Lemma run_adds ops : forall fuel self sys b,
  Forall (fun c => c = ord "+" \/ c = ord "-") ops ->
  tape_ok (_memory self) -> cur_elem (_memory self) = Ok b -> 0 <= b < 256 ->
  reads (_program self) ops -> (length ops < fuel)%nat ->
  exists self',
    start_program fuel self sys = Ok (self', sys) /\
    cur_elem (_memory self') =
      Ok ((b + count (ord "+") ops - count (ord "-") ops) mod 256) /\
    _ptr (_memory self') = _ptr (_memory self) /\
    _bracket_stack self' = _bracket_stack self.
Proof.
  induction ops as [|c ops IH]; intros fuel self sys b Hops Hm Eb Hb Hr Hfuel;
    (destruct fuel as [|fuel]; [simpl in Hfuel; lia|]).
  - exists self. rewrite start_program_halt by by apply reads_end.
    unfold count. simpl. rewrite Z.sub_0_r, Z.add_0_r, Z.mod_small by done.
    done.
  - apply reads_step in Hr as (Ec & p' & Hp' & Hr').
    apply Forall_cons in Hops as [Hc Hops].
    assert (exists n, (n = 1 \/ n = -1) /\
              dict_get _bf_cmds c = Ok (_add_to_current_byte n) /\
              n = (if decide (c = ord "+") then 1 else 0)
                  - (if decide (c = ord "-") then 1 else 0))
      as (n & Hn & Hh & Hcount).
    { destruct Hc as [-> | ->]; [exists 1|exists (-1)]; split; auto. }
    rewrite (start_program_S _ _ _ c) by (done || destruct Hc as [-> | ->]; done).
    destruct (add_to_current_byte_ok n fuel self sys b Hm Eb)
      as (m & Hadd & Hm' & Hptr & Em & _).
    unfold start_program_round. rewrite Hh. simpl. rewrite Hadd. simpl.
    rewrite Hp'. simpl.
    destruct (IH fuel (with_program (with_memory self m) p') sys
                ((b + n) mod 256)) as (self' & Hrun & Hcell & Hmp & Hst);
      try done.
    { apply Z.mod_pos_bound. lia. }
    { simpl in Hfuel. lia. }
    exists self'. split; [done|]. split; [|split; [by rewrite Hmp|done]].
    rewrite Hcell. f_equal. rewrite !count_cons.
    rewrite <- Z.add_sub_assoc, Zplus_mod_idemp_l. f_equal. lia.
Qed.

(** C6: the [cur_elem] setter stores [elem % 256] for every integer; a
    text of [+] and [-] only, loaded and run on a machine whose current
    cell holds [b], returns with that cell holding
    (b + number of [+] - number of [-]) mod 256 and the data cursor where
    it was; one [+] on 255 gives 0 and one [-] on 0 gives 255. *)
Theorem add_sub_wraps :
  (forall (t : Tape) (v : Z), tape_ok t ->
     exists t', cur_elem_set t v = Ok t' /\
       _storage t' = <[Z.to_nat (_ptr t) := v mod 256]> (_storage t) /\
       _ptr t' = _ptr t /\ cur_elem t' = Ok (v mod 256)) /\
  (forall (ops : list Z) (fuel : nat) (self : BfTuringMachine) (sys : Sys)
          (b : Z),
     Forall (fun c => c = ord "+" \/ c = ord "-") ops ->
     tape_ok (_memory self) -> cur_elem (_memory self) = Ok b ->
     0 <= b < 256 -> (length ops < fuel)%nat ->
     exists self',
       (self ← load_program self ops; start_program fuel self sys)
         = Ok (self', sys) /\
       cur_elem (_memory self') =
         Ok ((b + count (ord "+") ops - count (ord "-") ops) mod 256) /\
       _ptr (_memory self') = _ptr (_memory self)) /\
  (forall (fuel : nat) (self : BfTuringMachine) (sys : Sys),
     machine_ok self -> cur_elem (_memory self) = Ok 255 ->
     exists self',
       start_program_round fuel (ord "+") self sys = Ok (self', sys) /\
       cur_elem (_memory self') = Ok 0) /\
  (forall (fuel : nat) (self : BfTuringMachine) (sys : Sys),
     machine_ok self -> cur_elem (_memory self) = Ok 0 ->
     exists self',
       start_program_round fuel (ord "-") self sys = Ok (self', sys) /\
       cur_elem (_memory self') = Ok 255).
Proof.
  repeat apply conj.
  - intros t v Ht. eexists. split; [by apply cur_elem_set_ok|].
    destruct (cur_elem_after_set t v _ Ht (cur_elem_set_ok _ _ Ht))
      as (_ & _ & ?). done.
  - intros ops fuel self sys b Hops Hm Eb Hb Hfuel.
    destruct (load_program self ops) as [self1| |] eqn:El;
      [|by destruct (load_program_ok self ops) as (? & _ & ?); congruence..].
    apply reads_loaded in El as (Hr & Hmem & Hst). simpl.
    assert (to_load_of ops = ops) as Hid.
    { rewrite to_load_of_spec. apply filter_all.
      eapply Forall_impl; [done|].
      intros c [-> | ->]; by apply (bool_decide_unpack _). }
    rewrite Hid in Hr.
    destruct (run_adds ops fuel self1 sys b) as (self' & ? & ? & ? & _);
      try done; try by rewrite Hmem.
    exists self'. by rewrite <- Hmem.
  - intros fuel self sys [Hm _ Hp _] Eb.
    destruct (add_to_current_byte_ok 1 fuel self sys 255 Hm Eb)
      as (m & Hadd & Hm' & _ & Em & _).
    unfold start_program_round. simpl dict_get. simpl. rewrite Hadd. simpl.
    rewrite ptr_set_ok by (unfold tape_ok in Hp; lia).
    eexists. split; [reflexivity|]. done.
  - intros fuel self sys [Hm _ Hp _] Eb.
    destruct (add_to_current_byte_ok (-1) fuel self sys 0 Hm Eb)
      as (m & Hadd & Hm' & _ & Em & _).
    unfold start_program_round. simpl dict_get. simpl. rewrite Hadd. simpl.
    rewrite ptr_set_ok by (unfold tape_ok in Hp; lia).
    eexists. split; [reflexivity|]. done.
Qed.

Lemma add_sub_wraps_witness :
  (exists t', cur_elem_set Tape_ (-1) = Ok t' /\
     _storage t' = <[Z.to_nat (_ptr Tape_) := (-1) mod 256]> (_storage Tape_) /\
     _ptr t' = _ptr Tape_ /\ cur_elem t' = Ok 255) /\
  (exists self',
     (self ← load_program BfTuringMachine_ (str "--+");
      start_program 4 self {| stdin := []; stdout := [] |})
       = Ok (self', {| stdin := []; stdout := [] |}) /\
     cur_elem (_memory self') = Ok 255 /\
     _ptr (_memory self') = 0).
Proof.
  destruct add_sub_wraps as (H1 & H2 & _). split.
  - apply (H1 Tape_ (-1)). unfold tape_ok. simpl. lia.
  - apply (H2 (str "--+") 4%nat BfTuringMachine_ {| stdin := []; stdout := [] |} 0).
    + by apply (bool_decide_unpack _).
    + unfold tape_ok. simpl. lia.
    + reflexivity.
    + lia.
    + simpl. lia.
Defined.

(** ** Loading keeps the instruction symbols only (C9) *)

Lemma keys_bf_cmds : keys _bf_cmds = instruction_symbols.
Proof. reflexivity. Qed.

Lemma to_load_of_strip source : to_load_of source = strip source.
Proof.
  rewrite to_load_of_spec, keys_bf_cmds.
  induction source as [|c rest IH]; [done|].
  rewrite filter_cons. cbn [strip]. rewrite <- IH.
  destruct (decide (c ∈ instruction_symbols)) as [Hc|Hc].
  - by rewrite bool_decide_true.
  - by rewrite bool_decide_false.
Qed.

Lemma strip_symbols source : Forall (fun c => c ∈ instruction_symbols) (strip source).
Proof.
  induction source as [|c rest IH]; cbn [strip]; [constructor|].
  case_bool_decide; [by constructor|done].
Qed.

Lemma strip_idemp source : strip (strip source) = strip source.
Proof.
  induction source as [|c rest IH]; cbn [strip]; [done|].
  case_bool_decide as Hc; [|done].
  cbn [strip]. by rewrite bool_decide_true, IH.
Qed.

Lemma grow_0 (l : list Z) :
  grow l 0 = l ++ (if bool_decide (l = []) then [0] else []).
Proof.
  destruct l as [|x l]; [reflexivity|].
  rewrite grow_inside by (simpl; lia). by rewrite app_nil_r.
Qed.

(** C9: [load_program] gives [Tape.load] the characters of the source
    that are among the eight instruction symbols, in their order; the
    program tape then holds exactly them, with its cursor at 0 (and the
    one zero byte that the cursor setter adds when there is none of
    them); so loading a source and loading the stripped source give the
    same machine, and running them the same result. *)
Theorem load_program_filters :
  (forall source : list Z, to_load_of source = strip source) /\
  (forall (self : BfTuringMachine) (source : list Z),
     load_program self source =
     Ok (with_program self
           {| _storage :=
                strip source ++ (if bool_decide (strip source = []) then [0] else []);
              _ptr := 0 |})) /\
  (forall (self : BfTuringMachine) (source : list Z),
     load_program self source = load_program self (strip source)) /\
  (forall (fuel : nat) (self : BfTuringMachine) (sys : Sys) (source : list Z),
     (self ← load_program self source; start_program fuel self sys) =
     (self ← load_program self (strip source); start_program fuel self sys)) /\
  (forall (fuel : nat) (source input : list Z),
     run fuel source input = run fuel (strip source) input).
Proof.
  assert (forall self source,
     load_program self source =
     Ok (with_program self
           {| _storage :=
                strip source ++ (if bool_decide (strip source = []) then [0] else []);
              _ptr := 0 |})) as Hload.
  { intros self source.
    destruct (load_program_ok self source) as (p & Hp & ->).
    apply load_inv in Hp as [Hptr Hs]. destruct p as [s q]. simpl in *.
    by rewrite Hptr, Hs, to_load_of_strip, grow_0. }
  assert (forall self source,
     load_program self source = load_program self (strip source)) as Heq.
  { intros self source. by rewrite !Hload, strip_idemp. }
  repeat apply conj.
  - apply to_load_of_strip.
  - exact Hload.
  - exact Heq.
  - intros fuel self sys source. by rewrite Heq.
  - intros fuel source input. unfold run. by rewrite Heq.
Qed.

Example load_program_filters_example :
  load_program BfTuringMachine_ (str "read: , then loop [ . - ] done!") =
  load_program BfTuringMachine_ (str ",[.-]").
Proof. reflexivity. Qed.

(** ** Skipping a loop (C3) *)

Lemma next_inside p pre c rest :
  _storage p = pre ++ c :: rest -> _ptr p = Z.of_nat (length pre) ->
  rest <> [] ->
  __next__ p = Ok (c, {| _storage := _storage p; _ptr := _ptr p + 1 |}).
Proof.
  intros Hs Hptr Hrest.
  assert (Z.of_nat (length pre) + 1 < Z.of_nat (length (_storage p))) as Hlen.
  { rewrite Hs, length_app. simpl. destruct rest; [done|]. simpl. lia. }
  assert (tape_ok p) as Hp by (unfold tape_ok; lia).
  destruct (next_ok p Hp) as (x & Hx & ->).
  rewrite Hs, Hptr, Nat2Z.id, lookup_app_r, Nat.sub_diag in Hx by done.
  injection Hx as <-. rewrite grow_inside by lia. done.
Qed.

(** The scan goes through a balanced text and comes out of it with the
    nesting counter it went in with. *)
Lemma scan_balanced body : forall fuel pre post depth n p,
  _storage p = pre ++ body ++ post -> _ptr p = Z.of_nat (length pre) ->
  post <> [] -> balanced_from depth body = true -> Z.of_nat depth <= n ->
  _left_bracket_scan (length body + fuel) p n =
  _left_bracket_scan fuel
    {| _storage := _storage p; _ptr := Z.of_nat (length pre + length body) |}
    (n - Z.of_nat depth).
Proof.
  induction body as [|c body IH]; intros fuel pre post depth n p Hs Hptr Hpost Hbal Hn.
  - simpl in Hbal. destruct depth; [|done].
    simpl. rewrite Nat.add_0_r, Z.sub_0_r, <- Hptr. by destruct p.
  - cbn [length Nat.add]. rewrite scan_S.
    rewrite (next_inside p pre c (body ++ post)); [|done|done|by destruct body].
    set (p1 := {| _storage := _storage p; _ptr := _ptr p + 1 |}).
    assert (forall d m, balanced_from d body = true -> Z.of_nat d <= m ->
              m - Z.of_nat d = n - Z.of_nat depth ->
              _left_bracket_scan (length body + fuel) p1 m =
              _left_bracket_scan fuel
                {| _storage := _storage p;
                   _ptr := Z.of_nat (length pre + S (length body)) |}
                (n - Z.of_nat depth)) as Hrec.
    { intros d m Hd Hm <-.
      rewrite (IH fuel (pre ++ [c]) post d m p1); try done.
      - simpl. rewrite length_app. simpl. do 3 f_equal. lia.
      - simpl. by rewrite Hs, <- app_assoc.
      - simpl. rewrite length_app. simpl. lia. }
    cbn [balanced_from] in Hbal.
    destruct (Z.eqb_spec c (ord "[")) as [->|Hno].
    { simpl. apply (Hrec (S depth)); [done|lia|lia]. }
    destruct (Z.eqb_spec c (ord "]")) as [->|Hnc].
    { destruct depth as [|d]; [done|]. simpl.
      destruct (Z.eqb_spec n 0) as [->|_]; [lia|]. simpl.
      apply (Hrec d); [done|lia|lia]. }
    rewrite bool_decide_false.
    { simpl. by apply (Hrec depth). }
    simpl. rewrite !elem_of_cons, elem_of_nil. intros [?|[?|[]]]; done.
Qed.

(** At the matching []] the scan stops and moves the cursor back onto it. *)
Lemma scan_close fuel p pre post :
  _storage p = pre ++ ord "]" :: post -> _ptr p = Z.of_nat (length pre) ->
  exists p',
    _left_bracket_scan (S fuel) p 0 = Ok p' /\
    _ptr p' = _ptr p /\ cur_elem p' = Ok (ord "]") /\
    zero_extends (_storage p) (_storage p').
Proof.
  intros Hs Hptr.
  assert (tape_ok p) as Hp.
  { unfold tape_ok. rewrite Hs, length_app. simpl. lia. }
  destruct (next_ok p Hp) as (x & Hx & En).
  rewrite Hs, Hptr, Nat2Z.id, lookup_app_r, Nat.sub_diag in Hx by done.
  injection Hx as <-.
  rewrite scan_S, En. simpl. rewrite ptr_set_ok by (simpl; lia). simpl.
  eexists. split; [reflexivity|]. simpl.
  replace (_ptr p + 1 - 1) with (_ptr p) by lia.
  split; [done|]. split.
  - apply lookup_cur_elem; simpl; [lia|].
    eapply zero_extends_lookup.
    { eapply zero_extends_trans; apply grow_zero_extends. }
    rewrite Hs, Hptr, Nat2Z.id, lookup_app_r, Nat.sub_diag by done. done.
  - eapply zero_extends_trans; apply grow_zero_extends.
Qed.

(** C3: when [[] runs on a cell that holds 0 and a balanced body and a
    []] follow it in the program, the handler returns with the program
    cursor on that []] and nothing else changed (memory, bracket stack,
    input and output; the program storage may have grown by zero bytes),
    and the round of the dispatch loop leaves the cursor one past the []],
    from where the run goes on: nothing of the body is run. *)
Theorem left_bracket_skips_loop :
  forall (fuel : nat) (self : BfTuringMachine) (sys : Sys)
         (pre body post : list Z),
    _storage (_program self) = pre ++ ord "[" :: body ++ ord "]" :: post ->
    _ptr (_program self) = Z.of_nat (length pre) ->
    balanced body ->
    cur_elem (_memory self) = Ok 0 ->
    (length body < fuel)%nat ->
    exists p1 p2 : Tape,
      _left_bracket fuel self sys = Ok (with_program self p1, sys) /\
      _ptr p1 = Z.of_nat (length pre + 1 + length body) /\
      cur_elem p1 = Ok (ord "]") /\
      zero_extends (_storage (_program self)) (_storage p1) /\
      start_program_round fuel (ord "[") self sys = Ok (with_program self p2, sys) /\
      _ptr p2 = Z.of_nat (length pre + 1 + length body + 1) /\
      zero_extends (_storage (_program self)) (_storage p2) /\
      start_program (S fuel) self sys = start_program fuel (with_program self p2) sys.
Proof.
  intros fuel self sys pre body post Hs Hptr Hbal Hcell Hfuel.
  destruct fuel as [|fuel]; [lia|].
  assert (exists f, fuel = (length body + f)%nat) as [f ->]
    by (exists (fuel - length body)%nat; lia).
  set (p0 := {| _storage := _storage (_program self);
                _ptr := _ptr (_program self) + 1 |}).
  assert (__next__ (_program self) = Ok (ord "[", p0)) as Hnext.
  { eapply next_inside; [done|done|]. by destruct body. }
  assert (_left_bracket_scan (S (length body + f)) p0 0 =
          _left_bracket_scan (S f)
            {| _storage := _storage (_program self);
               _ptr := Z.of_nat (length (pre ++ [ord "["]) + length body) |} 0)
    as Hscan.
  { replace (S (length body + f)) with (length body + S f)%nat by lia.
    rewrite (scan_balanced body (S f) (pre ++ [ord "["]) (ord "]" :: post)
               O 0 p0); try done.
    - simpl. by rewrite Hs, <- app_assoc.
    - simpl. rewrite length_app. simpl. lia. }
  destruct (scan_close f
              {| _storage := _storage (_program self);
                 _ptr := Z.of_nat (length (pre ++ [ord "["]) + length body) |}
              (pre ++ ord "[" :: body) post)
    as (p1 & Hp1 & Hptr1 & Hcur1 & Hz1).
  { simpl. by rewrite Hs, <- app_assoc. }
  { simpl. rewrite !length_app. simpl. lia. }
  rewrite <- Hscan in Hp1. simpl in Hptr1, Hz1.
  assert (_left_bracket (S (length body + f)) self sys
          = Ok (with_program self p1, sys)) as Hlb.
  { unfold _left_bracket. cbn -[_left_bracket_scan]. rewrite Hcell.
    cbn -[_left_bracket_scan]. rewrite pop_snoc. cbn -[_left_bracket_scan].
    rewrite Hnext. cbn -[_left_bracket_scan]. rewrite Hp1.
    cbn -[_left_bracket_scan]. by destruct self. }
  assert (_ptr p1 = Z.of_nat (length pre + 1 + length body)) as Hptr1'.
  { rewrite Hptr1, length_app. simpl. lia. }
  set (p2 := {| _storage := grow (_storage p1) (_ptr p1 + 1);
                _ptr := _ptr p1 + 1 |}).
  assert (start_program_round (S (length body + f)) (ord "[") self sys
          = Ok (with_program self p2, sys)) as Hround.
  { unfold start_program_round. simpl dict_get. cbn -[_left_bracket].
    rewrite Hlb. cbn -[_left_bracket]. rewrite ptr_set_ok by lia. done. }
  exists p1, p2. repeat apply conj; try done.
  - simpl. lia.
  - simpl. eapply zero_extends_trans; [done|apply grow_zero_extends].
  - rewrite (start_program_S _ _ _ (ord "[")); [by rewrite Hround| |done].
    apply lookup_cur_elem; [lia|].
    rewrite Hs, Hptr, Nat2Z.id, lookup_app_r, Nat.sub_diag by done. done.
Qed.

Lemma left_bracket_skips_loop_witness :
  exists p1 p2 : Tape,
    _left_bracket 7%nat
      (with_program BfTuringMachine_ {| _storage := str "+[-[>]+]."; _ptr := 1 |}) {| stdin := []; stdout := [] |}
    = Ok (with_program
            (with_program BfTuringMachine_ {| _storage := str "+[-[>]+]."; _ptr := 1 |}) p1, {| stdin := []; stdout := [] |}) /\
    _ptr p1 = 7 /\
    cur_elem p1 = Ok (ord "]") /\
    zero_extends (str "+[-[>]+].") (_storage p1) /\
    start_program_round 7 (ord "[")
      (with_program BfTuringMachine_ {| _storage := str "+[-[>]+]."; _ptr := 1 |}) {| stdin := []; stdout := [] |}
    = Ok (with_program
            (with_program BfTuringMachine_ {| _storage := str "+[-[>]+]."; _ptr := 1 |}) p2, {| stdin := []; stdout := [] |}) /\
    _ptr p2 = 8 /\
    zero_extends (str "+[-[>]+].") (_storage p2) /\
    start_program 8
      (with_program BfTuringMachine_ {| _storage := str "+[-[>]+]."; _ptr := 1 |}) {| stdin := []; stdout := [] |}
    = start_program 7
        (with_program
           (with_program BfTuringMachine_ {| _storage := str "+[-[>]+]."; _ptr := 1 |}) p2) {| stdin := []; stdout := [] |}.
Proof.
  apply (left_bracket_skips_loop 7
           (with_program BfTuringMachine_ {| _storage := str "+[-[>]+]."; _ptr := 1 |})
           {| stdin := []; stdout := [] |}
           (str "+") (str "-[>]+") (str ".")).
  - reflexivity.
  - reflexivity.
  - reflexivity.
  - reflexivity.
  - simpl. lia.
Defined.

Example nested_loops_match :
  output (run 20 (str "[[-]+]+.") []) = Ok [1] /\
  output (run 20 (str "+[[-]]+.") []) = Ok [1].
Proof. split; vm_compute; reflexivity. Qed.


(** ** Further properties of the tape *)

Lemma cell_zero_extends s s' i : zero_extends s s' -> cell s' i = cell s i.
Proof.
  intros Hz. unfold cell.
  destruct (s !! i) as [x|] eqn:E.
  - by rewrite (zero_extends_lookup _ _ _ _ Hz E).
  - destruct (s' !! i) as [y|] eqn:E'; [|done]. simpl.
    apply lookup_ge_None in E.
    eapply zero_extends_lookup_new; [done|done|lia].
Qed.

Lemma grow_loop_stop r s p : p < Z.of_nat (length s) -> grow_loop r s p = s.
Proof. intros H. destruct r; simpl; [done|]. case_match; [lia|done]. Qed.

Lemma grow_loop_bound r s p :
  Z.of_nat (length s) <= p -> Z.of_nat (length (grow_loop r s p)) <= 2 * p + 1.
Proof.
  revert s. induction r as [|r IH]; intros s H; simpl; [lia|].
  case_match; [|lia].
  set (s' := s ++ bytearray (length s + 1)).
  assert (Z.of_nat (length s') = 2 * Z.of_nat (length s) + 1) as Hlen.
  { unfold s', bytearray. rewrite length_app, length_replicate. lia. }
  destruct (Z.le_gt_cases (Z.of_nat (length s')) p) as [Hle|Hgt].
  - by apply IH.
  - rewrite grow_loop_stop by lia. lia.
Qed.

Lemma grow_loop_length r s p :
  exists k : nat,
    Z.of_nat (length (grow_loop r s p)) + 1
    = (Z.of_nat (length s) + 1) * 2 ^ Z.of_nat k.
Proof.
  revert s. induction r as [|r IH]; intros s; simpl.
  - exists O. simpl. lia.
  - case_match; [|exists O; simpl; lia].
    destruct (IH (s ++ bytearray (length s + 1))) as [k Hk].
    exists (S k). rewrite Hk. unfold bytearray.
    rewrite length_app, length_replicate, Nat2Z.inj_succ, Z.pow_succ_r by lia.
    lia.
Qed.

(** X1: the cursor setter, when it returns, has put the cursor at [n]
    inside the storage; the storage is the old one followed by zero bytes,
    unchanged when [n] was inside it already; its new length plus one is
    the old length plus one times a power of two, and it is at most
    [2 * n + 1] when the tape had to grow. *)
Theorem ptr_set_grows (t t' : Tape) (n : Z) :
  ptr_set t n = Ok t' ->
  _ptr t' = n /\ tape_ok t' /\
  zero_extends (_storage t) (_storage t') /\
  (n < Z.of_nat (length (_storage t)) -> _storage t' = _storage t) /\
  (exists k : nat,
     Z.of_nat (length (_storage t')) + 1
     = (Z.of_nat (length (_storage t)) + 1) * 2 ^ Z.of_nat k) /\
  (Z.of_nat (length (_storage t)) <= n ->
   Z.of_nat (length (_storage t')) <= 2 * n + 1).
Proof.
  intros H. pose proof (ptr_set_tape_ok _ _ _ H) as Hok.
  apply ptr_set_inv in H as (Hn & Hp & Hs). rewrite Hs in *.
  split; [done|]. split; [done|]. split; [apply grow_zero_extends|].
  split; [apply grow_inside|]. split; [apply grow_loop_length|].
  apply grow_loop_bound.
Qed.

Lemma ptr_set_grows_witness :
  _ptr {| _storage := grow (str "+-") 5; _ptr := 5 |} = 5 /\
  tape_ok {| _storage := grow (str "+-") 5; _ptr := 5 |} /\
  zero_extends (str "+-") (grow (str "+-") 5) /\
  (5 < 2 -> grow (str "+-") 5 = str "+-") /\
  (exists k : nat, Z.of_nat (length (grow (str "+-") 5)) + 1 = (2 + 1) * 2 ^ Z.of_nat k) /\
  (2 <= 5 -> Z.of_nat (length (grow (str "+-") 5)) <= 2 * 5 + 1).
Proof.
  apply (ptr_set_grows {| _storage := str "+-"; _ptr := 0 |}
           {| _storage := grow (str "+-") 5; _ptr := 5 |} 5).
  reflexivity.
Defined.

(** X2: a byte written under the cursor is still there, modulo 256, after
    the cursor has moved anywhere and come back; the moves change no cell
    of the tape. *)
Theorem cell_persists (t t1 t2 t3 : Tape) (v q : Z) :
  tape_ok t ->
  cur_elem_set t v = Ok t1 -> ptr_set t1 q = Ok t2 ->
  ptr_set t2 (_ptr t) = Ok t3 ->
  cur_elem t3 = Ok (v mod 256) /\
  _ptr t3 = _ptr t /\
  (forall i : nat, cell (_storage t3) i = cell (_storage t1) i) /\
  (forall i : nat, i <> Z.to_nat (_ptr t) ->
     cell (_storage t3) i = cell (_storage t) i).
Proof.
  intros Ht H1 H2 H3.
  pose proof (ptr_set_zero_extends _ _ _ H2) as Hz2.
  pose proof (ptr_set_zero_extends _ _ _ H3) as Hz3.
  pose proof (zero_extends_trans _ _ _ Hz2 Hz3) as Hz.
  destruct (cur_elem_after_set _ _ _ Ht H1) as (Ht1 & Hp1 & Hc1).
  apply cur_elem_lookup in Hc1; [|done].
  apply ptr_set_inv in H3 as (Hp & Hp3 & _).
  rewrite cur_elem_set_ok in H1 by done. injection H1 as <-.
  simpl in *. split; [|split; [done|split]].
  - apply lookup_cur_elem; [lia|]. rewrite Hp3.
    by eapply zero_extends_lookup.
  - intros i. by apply cell_zero_extends.
  - intros i Hi. rewrite (cell_zero_extends _ _ _ Hz). unfold cell.
    by rewrite list_lookup_insert_ne.
Qed.

Lemma cell_persists_witness :
  cur_elem {| _storage := grow (grow (<[0%nat := 300 mod 256]> (str "+-")) 9) 0;
              _ptr := 0 |} = Ok (300 mod 256).
Proof.
  apply (cell_persists {| _storage := str "+-"; _ptr := 0 |}
           {| _storage := <[0%nat := 300 mod 256]> (str "+-"); _ptr := 0 |}
           {| _storage := grow (<[0%nat := 300 mod 256]> (str "+-")) 9; _ptr := 9 |}
           {| _storage := grow (grow (<[0%nat := 300 mod 256]> (str "+-")) 9) 0;
              _ptr := 0 |} 300 9).
  - unfold tape_ok. simpl. lia.
  - reflexivity.
  - reflexivity.
  - reflexivity.
Defined.

(** X3: [k] calls of [__next__] on a tape whose cursor is inside its
    storage never raise; they return the [k] bytes from the cursor onward,
    with 0 for every position beyond the storage, and leave the cursor [k]
    places further on a storage that only got zero bytes added. *)
Theorem next_n_reads_ahead (k : nat) : forall t : Tape,
  tape_ok t ->
  exists t' : Tape,
    next_n k t =
      Ok ((fun i => cell (_storage t) (Z.to_nat (_ptr t) + i)) <$> seq 0 k, t') /\
    _ptr t' = _ptr t + Z.of_nat k /\
    tape_ok t' /\
    zero_extends (_storage t) (_storage t').
Proof.
  induction k as [|k IH]; intros t Ht.
  - exists t. simpl.
    split; [done|]. split; [lia|]. split; [done|apply zero_extends_refl].
  - destruct (next_ok t Ht) as (x & Hx & En).
    set (t1 := {| _storage := grow (_storage t) (_ptr t + 1); _ptr := _ptr t + 1 |}) in *.
    assert (tape_ok t1) as Ht1.
    { eapply (ptr_set_tape_ok t (_ptr t + 1)). apply ptr_set_ok.
      unfold tape_ok in Ht. lia. }
    destruct (IH t1 Ht1) as (t' & En' & Hp' & Ht' & Hz').
    exists t'. cbn [next_n]. rewrite En. simpl. rewrite En'. simpl.
    assert (zero_extends (_storage t) (_storage t1)) as Hz1
      by apply grow_zero_extends.
    split; [|split; [|split]].
    + f_equal. f_equal. f_equal.
      * unfold cell. by rewrite Nat.add_0_r, Hx.
      * rewrite <- fmap_S_seq, <- list_fmap_compose.
        apply list_fmap_ext. intros _ i _. simpl.
        rewrite (cell_zero_extends _ _ _ Hz1). f_equal.
        unfold tape_ok in Ht. lia.
    + rewrite Hp'. simpl. lia.
    + done.
    + by eapply zero_extends_trans.
Qed.

Lemma next_n_reads_ahead_witness :
  exists t' : Tape,
    next_n 4 {| _storage := str "+-."; _ptr := 1 |} = Ok ([45; 46; 0; 0], t') /\
    _ptr t' = 5 /\ tape_ok t' /\ zero_extends (str "+-.") (_storage t').
Proof.
  apply (next_n_reads_ahead 4 {| _storage := str "+-."; _ptr := 1 |}).
  unfold tape_ok. simpl. lia.
Defined.

(** ** Further properties of the handlers *)

(** X4: [,] takes one character off the input and stores its code point
    modulo 256 in the current cell; at end of input it stores 0 and the
    input stays empty.  It changes no other cell, moves no cursor, writes
    nothing, and does not raise when the data cursor is inside the
    memory. *)
Theorem read_byte_and_store_spec (fuel : nat) (self : BfTuringMachine) (sys : Sys) :
  tape_ok (_memory self) ->
  exists m : Tape,
    _read_byte_and_store fuel self sys =
      Ok (with_memory self m,
          {| stdin := tail (stdin sys); stdout := stdout sys |}) /\
    cur_elem m = Ok (default 0 (head (stdin sys)) mod 256) /\
    _ptr m = _ptr (_memory self) /\
    length (_storage m) = length (_storage (_memory self)) /\
    (forall i : nat, i <> Z.to_nat (_ptr (_memory self)) ->
       _storage m !! i = _storage (_memory self) !! i).
Proof.
  intros Hm.
  set (c := default 0 (head (stdin sys))).
  exists {| _storage := <[Z.to_nat (_ptr (_memory self)) := c mod 256]>
                          (_storage (_memory self));
            _ptr := _ptr (_memory self) |}.
  destruct (cur_elem_after_set _ c _ Hm (cur_elem_set_ok _ c Hm)) as (_ & _ & Hc).
  split; [|split; [done|split; [done|split]]].
  - unfold _read_byte_and_store, stdin_read1. subst c.
    destruct sys as [[|x rest] out]; simpl; by rewrite cur_elem_set_ok.
  - simpl. by rewrite length_insert.
  - intros i Hi. simpl. by rewrite list_lookup_insert_ne.
Qed.

Lemma read_byte_and_store_spec_witness :
  exists m : Tape,
    _read_byte_and_store O BfTuringMachine_ {| stdin := [321; 7]; stdout := [] |} =
      Ok (with_memory BfTuringMachine_ m, {| stdin := [7]; stdout := [] |}) /\
    cur_elem m = Ok 65 /\
    _ptr m = 0 /\
    length (_storage m) = 4096%nat /\
    (forall i : nat, i <> O -> _storage m !! i = _storage Tape_ !! i).
Proof.
  apply (read_byte_and_store_spec O BfTuringMachine_
           {| stdin := [321; 7]; stdout := [] |}).
  unfold tape_ok. simpl. lia.
Defined.

(** X5: [.] appends the byte of the current cell, and nothing else, to
    the output; it leaves the machine and the input as they were, and on a
    memory of bytes it does not raise. *)
Theorem current_byte_out_spec (fuel : nat) (self : BfTuringMachine) (sys : Sys) :
  tape_ok (_memory self) -> bytes_ok (_storage (_memory self)) ->
  exists c : Z,
    cur_elem (_memory self) = Ok c /\ 0 <= c < 256 /\
    _current_byte_out fuel self sys =
      Ok (self, {| stdin := stdin sys; stdout := stdout sys ++ [c] |}).
Proof.
  intros Hm Hb. destruct (cur_elem_ok _ Hm) as (c & Hc & Ec).
  pose proof (cur_elem_byte _ _ Hm Hb Ec) as Hcb.
  exists c. split; [done|]. split; [done|].
  unfold _current_byte_out. rewrite Ec. simpl.
  by rewrite to_bytes1_ok.
Qed.

Lemma current_byte_out_spec_witness :
  exists c : Z,
    cur_elem (_memory BfTuringMachine_) = Ok c /\ 0 <= c < 256 /\
    _current_byte_out O BfTuringMachine_ {| stdin := [1]; stdout := [2] |} =
      Ok (BfTuringMachine_, {| stdin := [1]; stdout := [2] ++ [c] |}).
Proof.
  apply (current_byte_out_spec O BfTuringMachine_ {| stdin := [1]; stdout := [2] |}).
  - unfold tape_ok. simpl. lia.
  - apply Forall_replicate. lia.
Defined.

(** X6: [>] followed by [<] brings the data cursor back to where it was
    and changes no cell (the memory may have grown by zero bytes); in
    between, the cursor is on the right neighbour.  [<] followed by [>],
    when the cursor is not at 0, gives back the very same machine. *)
Theorem shift_there_and_back (fuel : nat) (self : BfTuringMachine) (sys : Sys) :
  tape_ok (_memory self) ->
  (exists self1 self2 : BfTuringMachine,
     _shift_data_ptr 1 fuel self sys = Ok (self1, sys) /\
     _shift_data_ptr (-1) fuel self1 sys = Ok (self2, sys) /\
     cur_elem (_memory self1) =
       Ok (cell (_storage (_memory self)) (Z.to_nat (_ptr (_memory self)) + 1)) /\
     _ptr (_memory self2) = _ptr (_memory self) /\
     cur_elem (_memory self2) = cur_elem (_memory self) /\
     (forall i : nat,
        cell (_storage (_memory self2)) i = cell (_storage (_memory self)) i) /\
     _program self2 = _program self /\
     _bracket_stack self2 = _bracket_stack self) /\
  (0 < _ptr (_memory self) ->
   exists self1 : BfTuringMachine,
     _shift_data_ptr (-1) fuel self sys = Ok (self1, sys) /\
     _ptr (_memory self1) = _ptr (_memory self) - 1 /\
     _shift_data_ptr 1 fuel self1 sys = Ok (self, sys)).
Proof.
  intros Hm. pose proof Hm as [Hlo Hhi]. split.
  - set (s1 := grow (_storage (_memory self)) (_ptr (_memory self) + 1)).
    assert (zero_extends (_storage (_memory self)) s1) as Hz
      by apply grow_zero_extends.
    assert (_ptr (_memory self) + 1 < Z.of_nat (length s1)) as Hlen
      by apply grow_exits.
    exists (with_memory self {| _storage := s1; _ptr := _ptr (_memory self) + 1 |}),
           (with_memory self {| _storage := s1; _ptr := _ptr (_memory self) |}).
    destruct (cur_elem_ok _ Hm) as (c & Hc & Ec).
    split; [|split; [|split; [|split; [|split; [|split]]]]]; simpl.
    + unfold _shift_data_ptr. by rewrite ptr_set_ok by lia.
    + unfold _shift_data_ptr. simpl. rewrite ptr_set_ok by lia. simpl.
      replace (_ptr (_memory self) + 1 + -1) with (_ptr (_memory self)) by lia.
      by rewrite grow_inside by lia.
    + destruct (cur_elem_ok {| _storage := s1; _ptr := _ptr (_memory self) + 1 |})
        as (x & Hx & ->); [unfold tape_ok; simpl; lia|].
      simpl in Hx. f_equal. rewrite <- (cell_zero_extends _ _ _ Hz).
      unfold cell.
      replace (Z.to_nat (_ptr (_memory self)) + 1)%nat
        with (Z.to_nat (_ptr (_memory self) + 1)) by lia.
      by rewrite Hx.
    + done.
    + rewrite Ec. apply lookup_cur_elem; simpl; [lia|].
      by eapply zero_extends_lookup.
    + intros i. by apply cell_zero_extends.
    + done.
  - intros Hpos.
    exists (with_memory self {| _storage := _storage (_memory self);
                               _ptr := _ptr (_memory self) - 1 |}).
    split; [|split]; simpl.
    + unfold _shift_data_ptr. rewrite ptr_set_ok by lia.
      rewrite grow_inside by lia. done.
    + done.
    + unfold _shift_data_ptr. simpl. rewrite ptr_set_ok by lia. simpl.
      replace (_ptr (_memory self) - 1 + 1) with (_ptr (_memory self)) by lia.
      rewrite grow_inside by lia. by destruct self as [[] ? ?].
Qed.

Lemma shift_there_and_back_witness :
  exists self1 : BfTuringMachine,
    _shift_data_ptr (-1) O
      (with_memory BfTuringMachine_ {| _storage := [7; 8]; _ptr := 1 |})
      {| stdin := []; stdout := [] |} = Ok (self1, {| stdin := []; stdout := [] |}) /\
    _ptr (_memory self1) = 1 - 1 /\
    _shift_data_ptr 1 O self1 {| stdin := []; stdout := [] |} =
      Ok (with_memory BfTuringMachine_ {| _storage := [7; 8]; _ptr := 1 |},
          {| stdin := []; stdout := [] |}).
Proof.
  destruct (shift_there_and_back O
              (with_memory BfTuringMachine_ {| _storage := [7; 8]; _ptr := 1 |})
              {| stdin := []; stdout := [] |}) as [_ H].
  - unfold tape_ok. simpl. lia.
  - apply H. simpl. lia.
Defined.

(** X7: []] run on a cell that holds 0, with a bracket stack that is not
    empty, pops the last position off the stack and changes nothing else;
    the round of the dispatch loop then moves the program cursor one
    place on, out of the loop. *)
Theorem right_bracket_leaves_loop (fuel : nat) (self : BfTuringMachine) (sys : Sys) :
  cur_elem (_memory self) = Ok 0 -> _bracket_stack self <> [] ->
  0 <= _ptr (_program self) ->
  _right_bracket fuel self sys =
    Ok (with_bracket_stack self (removelast (_bracket_stack self)), sys) /\
  exists p : Tape,
    start_program_round fuel (ord "]") self sys =
      Ok (with_program
            (with_bracket_stack self (removelast (_bracket_stack self))) p, sys) /\
    _ptr p = _ptr (_program self) + 1 /\
    zero_extends (_storage (_program self)) (_storage p).
Proof.
  intros Hc Hs Hp.
  assert (_right_bracket fuel self sys =
    Ok (with_bracket_stack self (removelast (_bracket_stack self)), sys)) as Hrb.
  { unfold _right_bracket. destruct (_bracket_stack self) as [|a l]; [done|].
    rewrite Hc. done. }
  split; [done|].
  eexists. split; [|split].
  - unfold start_program_round. simpl dict_get. cbn -[_right_bracket].
    rewrite Hrb. simpl. rewrite ptr_set_ok by lia. reflexivity.
  - done.
  - apply grow_zero_extends.
Qed.

Lemma right_bracket_leaves_loop_witness :
  _right_bracket O
    (with_bracket_stack BfTuringMachine_ [3; 5]) {| stdin := []; stdout := [] |} =
  Ok (with_bracket_stack (with_bracket_stack BfTuringMachine_ [3; 5]) [3],
      {| stdin := []; stdout := [] |}).
Proof.
  apply (right_bracket_leaves_loop O
           (with_bracket_stack BfTuringMachine_ [3; 5])
           {| stdin := []; stdout := [] |}).
  - reflexivity.
  - done.
  - simpl. lia.
Defined.

(** ** Further properties of a run *)

(** What a handler that returns has done to the bracket stack and to the
    streams. *)
Lemma handler_effect b h fuel self sys self' sys' :
  dict_get _bf_cmds b = Ok h -> machine_ok self ->
  h fuel self sys = Ok (self', sys') ->
  (_bracket_stack self' = _bracket_stack self \/
   (b = ord "[" /\
    _bracket_stack self' = _bracket_stack self ++ [_ptr (_program self)]) \/
   (b = ord "]" /\ _bracket_stack self' = removelast (_bracket_stack self))) /\
  (sys' = sys \/
   (b = ord "." /\ exists c, 0 <= c < 256 /\
      sys' = {| stdin := stdin sys; stdout := stdout sys ++ [c] |}) \/
   (b = ord "," /\ sys' = {| stdin := tail (stdin sys); stdout := stdout sys |})).
Proof.
  intros Hh [Hm Hb Hp Hs] H.
  apply dict_get_cmds in Hh as
    [[_ ->]|[[_ ->]|[[_ ->]|[[_ ->]|[[-> ->]|[[-> ->]|[[-> ->]|[-> ->]]]]]]]].
  1,2: unfold _shift_data_ptr in H;
    destruct (ptr_set _ _) as [m| |]; simplify_eq/=; auto.
  1,2: unfold _add_to_current_byte in H;
    destruct (cur_elem _) as [c| |]; simplify_eq/=;
    destruct (cur_elem_set _ _) as [m| |]; simplify_eq/=; auto.
  - destruct (cur_elem_ok _ Hm) as (c & _ & Ec).
    pose proof (cur_elem_byte _ _ Hm Hb Ec) as Hc.
    unfold _current_byte_out in H. rewrite Ec in H. simpl in H.
    rewrite to_bytes1_ok in H by done. injection H as <- <-.
    split; [auto|]. right. left. split; [done|]. by exists c.
  - unfold _read_byte_and_store, stdin_read1 in H.
    destruct sys as [[|x rest] out]; simpl in H;
      rewrite cur_elem_set_ok in H by done; injection H as <- <-; simpl; auto.
  - unfold _left_bracket in H. simpl in H.
    destruct (cur_elem _) as [c| |]; simplify_eq/=.
    destruct (negb (c =? 0)); simplify_eq/=; [auto|].
    rewrite pop_snoc in H. simpl in H.
    destruct (__next__ _) as [[x p1]| |]; simplify_eq/=.
    destruct (_left_bracket_scan _ _ _) as [p2| |]; simplify_eq/=. auto.
  - unfold _right_bracket in H.
    destruct (_bracket_stack self) as [|a l] eqn:El; [done|].
    destruct (cur_elem _) as [c| |]; simplify_eq/=.
    destruct (c =? 0).
    + simpl in H. simplify_eq. split; [|by left]. right. right. done.
    + destruct (top _) as [t| |]; simplify_eq/=.
      destruct (ptr_set _ _) as [p| |]; simplify_eq/=. auto.
Qed.

Lemma round_effect fuel b self sys self' sys' :
  machine_ok self -> start_program_round fuel b self sys = Ok (self', sys') ->
  (_bracket_stack self' = _bracket_stack self \/
   (b = ord "[" /\
    _bracket_stack self' = _bracket_stack self ++ [_ptr (_program self)]) \/
   (b = ord "]" /\ _bracket_stack self' = removelast (_bracket_stack self))) /\
  (sys' = sys \/
   (b = ord "." /\ exists c, 0 <= c < 256 /\
      sys' = {| stdin := stdin sys; stdout := stdout sys ++ [c] |}) \/
   (b = ord "," /\ sys' = {| stdin := tail (stdin sys); stdout := stdout sys |})).
Proof.
  intros Hok (h & self1 & p & Hh & H1 & Hp & ->)%round_inv.
  by apply (handler_effect _ _ _ _ _ _ _ Hh Hok H1).
Qed.

(** X8: a source text loaded into a new machine and run can raise only
    the IndexError of the cursor setter and the BrainfuckSyntaxError of an
    unmatched []], the two classes [main] catches: never a KeyError from
    the lookup in [_bf_cmds], an IndexError from a [bytearray] or the
    stack, an OverflowError from [to_bytes], or "Unmatched [". *)
Theorem run_raises_only (fuel : nat) (source input : list Z) (e : exn) :
  run fuel source input = Raise e ->
  e = IndexError "Tried to set tape pointer < 0" \/
  e = BrainfuckSyntaxError "Unmatched ]".
Proof.
  intros H. rewrite run_unfold in H.
  eapply start_program_raises; [|exact H].
  apply reachable_loaded, run_loaded.
Qed.

Lemma run_raises_only_witness :
  IndexError "Tried to set tape pointer < 0"
    = IndexError "Tried to set tape pointer < 0" \/
  IndexError "Tried to set tape pointer < 0"
    = BrainfuckSyntaxError "Unmatched ]".
Proof.
  apply (run_raises_only 4 (str "+><<") []). reflexivity.
Defined.

(** X9: in every state of a run both cursors are inside their storage,
    every memory cell is a byte, and every position on the bracket stack
    is at or above 0 and is the position of a [[] in the program. *)
Theorem reachable_sound (source input : list Z) (self : BfTuringMachine) (sys : Sys) :
  reachable source input self sys ->
  tape_ok (_memory self) /\ tape_ok (_program self) /\
  bytes_ok (_storage (_memory self)) /\
  stack_on_brackets self.
Proof.
  intros Hr. destruct (reachable_ok _ _ _ _ Hr) as [[Hm Hb Hp _] _].
  split; [done|]. split; [done|]. split; [done|].
  clear Hm Hb Hp.
  induction Hr as [self H|self sys b fuel self' sys' Hr IH Hcur Hb0 H].
  - rewrite run_loaded in H. injection H as <-. constructor.
  - destruct (reachable_ok _ _ _ _ Hr) as [Hok _].
    destruct (round_ok _ _ _ _ _ _ Hok H) as [_ Hz].
    destruct (round_effect _ _ _ _ _ _ Hok H) as [Hst _].
    assert (Forall (fun p => 0 <= p /\
              _storage (_program self') !! Z.to_nat p = Some (ord "["))
              (_bracket_stack self)) as IH'.
    { eapply Forall_impl; [exact IH|]. intros p [? ?]. split; [done|].
      by eapply zero_extends_lookup. }
    unfold stack_on_brackets.
    destruct Hst as [->|[[-> ->]| [_ ->]]]; [done| |by apply removelast_Forall].
    apply Forall_app. split; [done|]. apply Forall_singleton.
    destruct (program_ok _ Hok) as [Hlo _]. split; [done|].
    eapply zero_extends_lookup; [done|].
    by apply cur_elem_lookup; [apply (program_ok _ Hok)|].
Qed.

Lemma reachable_sound_witness :
  tape_ok (_memory BfTuringMachine_) /\
  tape_ok {| _storage := str "+[-]"; _ptr := 0 |} /\
  bytes_ok (_storage (_memory BfTuringMachine_)) /\
  stack_on_brackets
    (with_program BfTuringMachine_ {| _storage := str "+[-]"; _ptr := 0 |}).
Proof.
  apply (reachable_sound (str "+[-]") []
           (with_program BfTuringMachine_ {| _storage := str "+[-]"; _ptr := 0 |})
           {| stdin := []; stdout := [] |}).
  apply reachable_loaded. reflexivity.
Defined.

(** X10: a run that returns has only appended to the output and only
    taken characters off the front of the input, at most one byte or one
    character for a round of the dispatch loop, and every byte it wrote is
    in the range of a byte. *)
Theorem streams_only_advance (fuel : nat) : forall (self self' : BfTuringMachine)
    (sys sys' : Sys),
  machine_ok self ->
  start_program fuel self sys = Ok (self', sys') ->
  exists out taken : list Z,
    stdout sys' = stdout sys ++ out /\
    stdin sys = taken ++ stdin sys' /\
    bytes_ok out /\
    (length out + length taken < fuel)%nat.
Proof.
  induction fuel as [|fuel IH]; intros self self' sys sys' Hok; [done|].
  rewrite start_program_unfold.
  destruct (cur_elem (_program self)) as [b| |]; cbn -[start_program start_program_round]; try done.
  destruct (Z.eqb_spec b 0) as [->|Hb0]; cbn -[start_program start_program_round].
  - intros [= <- <-]. exists [], []. rewrite app_nil_r.
    split; [done|]. split; [done|]. split; [constructor|simpl; lia].
  - destruct (start_program_round fuel b self sys) as [[self1 sys1]| |] eqn:E;
      cbn -[start_program start_program_round]; try done.
    intros Hrun.
    destruct (round_ok _ _ _ _ _ _ Hok E) as [Hok1 _].
    destruct (round_effect _ _ _ _ _ _ Hok E) as [_ Hsys].
    destruct (IH _ _ _ _ Hok1 Hrun) as (out & taken & Ho & Hi & Hb & Hlen).
    destruct Hsys as [->|[(_ & c & Hc & ->)|[_ ->]]]; simpl in *.
    + exists out, taken. repeat split; try done. lia.
    + exists (c :: out), taken.
      split; [by rewrite Ho, <- ?app_assoc|]. split; [done|].
      split; [by constructor|simpl; lia].
    + destruct (stdin sys) as [|x rest] eqn:Ein; simpl in *.
      * symmetry in Hi. apply app_eq_nil in Hi as [-> Hi].
        exists out, []. simpl in *. rewrite Hi.
        split; [done|]. split; [done|]. split; [done|lia].
      * exists out, (x :: taken). simpl. rewrite Hi.
        split; [done|]. split; [done|]. split; [done|lia].
Qed.

Lemma streams_only_advance_witness :
  exists out taken : list Z,
    [3; 2; 1] = [] ++ out /\
    [3; 9] = taken ++ [9] /\
    bytes_ok out /\
    (length out + length taken < 12)%nat.
Proof.
  apply (streams_only_advance 12
           (with_program BfTuringMachine_ {| _storage := str ",[.-]"; _ptr := 0 |})
           {| _memory := Tape_;
              _program := {| _storage := str ",[.-]" ++ bytearray 6; _ptr := 5 |};
              _bracket_stack := [] |}
           {| stdin := [3; 9]; stdout := [] |}
           {| stdin := [9]; stdout := [3; 2; 1] |}).
  - split; simpl; [unfold tape_ok; simpl; lia|apply Forall_replicate; lia
                  |unfold tape_ok; simpl; lia|constructor].
  - vm_compute. reflexivity.
Defined.

(** X11: a source text without any instruction symbol, the empty text
    among them, loads as the single zero byte and halts in the first test
    of the dispatch loop: nothing is read, written or changed. *)
Theorem comments_only_halt (fuel : nat) (source input : list Z) :
  strip source = [] ->
  run (S fuel) source input =
    Ok (with_program BfTuringMachine_ {| _storage := [0]; _ptr := 0 |},
        {| stdin := input; stdout := [] |}).
Proof.
  intros H. rewrite run_unfold, to_load_of_strip, H.
  by rewrite start_program_halt.
Qed.

Lemma comments_only_halt_witness :
  run 1 (str "no instructions here") [5] =
    Ok (with_program BfTuringMachine_ {| _storage := [0]; _ptr := 0 |},
        {| stdin := [5]; stdout := [] |}).
Proof. apply (comments_only_halt O). reflexivity. Defined.

(** X12: [[] run on a cell that holds 0 with no []] anywhere after it in
    the program storage never returns and never raises, whatever the
    number of steps: the scan reads on into the zero bytes the tape adds.
    So does the run that is on such a [[]. *)
Theorem left_bracket_without_close_hangs (fuel : nat) (self : BfTuringMachine)
    (sys : Sys) :
  tape_ok (_program self) ->
  cur_elem (_memory self) = Ok 0 ->
  (forall (i : nat) (x : Z), (Z.to_nat (_ptr (_program self)) < i)%nat ->
     _storage (_program self) !! i = Some x -> x <> ord "]") ->
  _left_bracket fuel self sys = Timeout /\
  (cur_elem (_program self) = Ok (ord "[") ->
   start_program fuel self sys = Timeout).
Proof.
  intros Hp Hc Hno.
  assert (forall f, _left_bracket f self sys = Timeout) as Hlb.
  { intros f. unfold _left_bracket. cbn -[_left_bracket_scan grow]. rewrite Hc.
    cbn -[_left_bracket_scan grow]. rewrite pop_snoc. cbn -[_left_bracket_scan grow].
    destruct (next_ok _ Hp) as (x & _ & ->). cbn -[_left_bracket_scan grow].
    rewrite scan_no_close_diverges; [done| |].
    - eapply (ptr_set_tape_ok (_program self) (_ptr (_program self) + 1)).
      apply ptr_set_ok. unfold tape_ok in Hp. lia.
    - cbn [_storage _ptr _program with_bracket_stack]. intros i y Hi Hy.
      destruct (decide (i < length (_storage (_program self)))%nat) as [Hlt|Hge].
      + destruct (lookup_lt_is_Some_2 _ i Hlt) as [z Hz].
        pose proof (zero_extends_lookup _ _ _ _
          (grow_zero_extends (_storage (_program self))
             (_ptr (_program self) + 1)) Hz) as Hy'.
        assert (y = z) as -> by congruence.
        eapply Hno; [|done]. unfold tape_ok in Hp. lia.
      + assert (y = 0) as ->; [|done].
        eapply zero_extends_lookup_new; [apply grow_zero_extends|done|lia]. }
  split; [done|]. intros Hcur. destruct fuel as [|fuel]; [done|].
  rewrite (start_program_S _ _ _ (ord "[")); [|done|done].
  unfold start_program_round. simpl dict_get. cbn -[_left_bracket].
  by rewrite Hlb.
Qed.

Lemma left_bracket_without_close_hangs_witness :
  _left_bracket 50%nat
    (with_program BfTuringMachine_ {| _storage := str "+]-[[+"; _ptr := 3 |})
    {| stdin := []; stdout := [] |} = Timeout.
Proof.
  destruct (left_bracket_without_close_hangs 50
              (with_program BfTuringMachine_
                 {| _storage := str "+]-[[+"; _ptr := 3 |})
              {| stdin := []; stdout := [] |}) as [H _].
  - unfold tape_ok. simpl. lia.
  - reflexivity.
  - simpl. intros [|[|[|[|[|[|i]]]]]] x Hi; simpl; try lia; by intros [= <-].
  - exact H.
Defined.

(** A handler other than that of [[], run with an empty bracket stack,
    uses no budget, and when it returns it has left the program tape and
    the empty stack alone. *)
Lemma plain_handler b h fuel self sys :
  dict_get _bf_cmds b = Ok h -> b <> ord "[" -> _bracket_stack self = [] ->
  h fuel self sys <> Timeout /\
  forall self1 sys1, h fuel self sys = Ok (self1, sys1) ->
    _program self1 = _program self /\ _bracket_stack self1 = [].
Proof.
  intros Hh Hb Hs.
  apply dict_get_cmds in Hh as
    [[_ ->]|[[_ ->]|[[_ ->]|[[_ ->]|[[_ ->]|[[_ ->]|[[-> _]|[_ ->]]]]]]]];
    try done.
  1,2: unfold _shift_data_ptr;
    destruct (ptr_set _ _) as [m| |] eqn:E; simpl;
    [|done|by apply ptr_set_inv in E || (unfold ptr_set in E; case_match; done)];
    split; [done|]; by intros ? ? [= <- <-].
  1,2: unfold _add_to_current_byte;
    destruct (cur_elem _) as [c| |] eqn:Ec; simpl;
    [|done|by unfold cur_elem, getitem in Ec; repeat case_match];
    destruct (cur_elem_set _ _) as [m| |] eqn:E; simpl;
    [|done|by unfold cur_elem_set, setitem in E; repeat case_match];
    split; [done|]; by intros ? ? [= <- <-].
  - unfold _current_byte_out.
    destruct (cur_elem _) as [c| |] eqn:Ec; simpl;
      [|done|by unfold cur_elem, getitem in Ec; repeat case_match].
    destruct (to_bytes1 c) as [x| |] eqn:E; simpl;
      [|done|by unfold to_bytes1 in E; repeat case_match].
    split; [done|]. by intros ? ? [= <- <-].
  - unfold _read_byte_and_store, stdin_read1.
    destruct (stdin sys); simpl;
      (destruct (cur_elem_set _ _) as [m| |] eqn:E; simpl;
       [|done|by unfold cur_elem_set, setitem in E; repeat case_match]);
      (split; [done|]; by intros ? ? [= <- <-]).
  - unfold _right_bracket. rewrite Hs. done.
Qed.

Lemma straight_line ops : forall fuel self sys,
  Forall (fun c => c ∈ keys _bf_cmds /\ c <> ord "[") ops ->
  machine_ok self -> _bracket_stack self = [] ->
  reads (_program self) ops -> (length ops < fuel)%nat ->
  start_program fuel self sys <> Timeout.
Proof.
  induction ops as [|c ops IH]; intros fuel self sys Hops Hok Hs Hr Hfuel;
    (destruct fuel as [|fuel]; [simpl in Hfuel; lia|]).
  - by rewrite start_program_halt by by apply reads_end.
  - apply reads_step in Hr as (Ec & p' & Hp' & Hr').
    apply Forall_cons in Hops as [[Hc Hno] Hops].
    destruct (dict_get_key c Hc) as [h Hh].
    assert (c <> 0) as Hc0.
    { intros ->. revert Hh. by vm_compute. }
    rewrite (start_program_S _ _ _ c) by done.
    unfold start_program_round. rewrite Hh. cbn -[start_program].
    destruct (plain_handler c h fuel self sys Hh Hno Hs) as [Hnt Hframe].
    destruct (h fuel self sys) as [[self1 sys1]| |] eqn:E;
      cbn -[start_program]; try done.
    destruct (Hframe _ _ eq_refl) as [Hprog Hs1].
    rewrite Hprog, Hp'. cbn -[start_program].
    destruct (handler_ok _ _ _ _ _ _ _ Hh Hok E) as [[] _].
    apply IH; try done.
    + split; simpl; try done. by destruct Hr'.
    + simpl in Hfuel. lia.
Qed.

(** X13: a source text without [[] always comes to an end: run on a new
    machine with more steps than it has instruction symbols, it returns
    or raises, whatever the input. *)
Theorem bracket_free_terminates (fuel : nat) (source input : list Z) :
  ord "[" ∉ source -> (length (strip source) < fuel)%nat ->
  run fuel source input <> Timeout.
Proof.
  intros Hno Hfuel. rewrite run_unfold.
  apply (straight_line (strip source)).
  - rewrite <- to_load_of_strip, to_load_of_spec. apply Forall_forall.
    intros c [Hc Hin]%list_elem_of_filter. split; [done|]. by intros ->.
  - destruct (loaded_ok source _ (run_loaded source)). done.
  - done.
  - destruct (reads_loaded BfTuringMachine_ source _ (run_loaded source))
      as [Hr _]. rewrite <- to_load_of_strip. exact Hr.
  - done.
Qed.

Lemma bracket_free_terminates_witness :
  run 9 (str "+ > , . ] < < -") [7] <> Timeout.
Proof.
  apply bracket_free_terminates.
  - by apply (bool_decide_unpack _).
  - simpl. lia.
Defined.

(** ** The loop [[-]] *)

Lemma right_bracket_back fuel self sys c t :
  cur_elem (_memory self) = Ok c -> c <> 0 ->
  last (_bracket_stack self) = Some t -> 0 <= t ->
  _right_bracket fuel self sys =
    Ok (with_program self
          {| _storage := grow (_storage (_program self)) t; _ptr := t |}, sys).
Proof.
  intros Hc Hc0 Ht Ht0. unfold _right_bracket.
  destruct (_bracket_stack self) as [|a l] eqn:El; [done|].
  rewrite Hc. simpl. destruct (Z.eqb_spec c 0); [done|].
  unfold top. rewrite Ht. simpl. by rewrite ptr_set_ok.
Qed.

Lemma right_bracket_out fuel self sys :
  cur_elem (_memory self) = Ok 0 -> _bracket_stack self <> [] ->
  _right_bracket fuel self sys =
    Ok (with_bracket_stack self (removelast (_bracket_stack self)), sys).
Proof.
  intros Hc Hs. unfold _right_bracket.
  destruct (_bracket_stack self) as [|a l]; [done|]. by rewrite Hc.
Qed.

Lemma scan_S_other fuel p n c p' :
  __next__ p = Ok (c, p') -> c <> ord "[" -> c <> ord "]" ->
  _left_bracket_scan (S fuel) p n = _left_bracket_scan fuel p' n.
Proof.
  intros H Ho Hc. rewrite scan_S, H. rewrite bool_decide_false; [done|].
  simpl. rewrite !elem_of_cons, elem_of_nil. intros [?|[?|[]]]; done.
Qed.

Lemma scan_S_close fuel p p' :
  __next__ p = Ok (ord "]", p') ->
  _left_bracket_scan (S fuel) p 0 = ptr_set p' (_ptr p' - 1).
Proof. intros H. rewrite scan_S, H. reflexivity. Qed.

Section clear_loop.
Variables (s : list Z) (P mp : Z) (st : list Z) (sys : Sys).
Hypothesis HP : 0 <= P.
Hypothesis Hopen : s !! Z.to_nat P = Some (ord "[").
Hypothesis Hminus : s !! Z.to_nat (P + 1) = Some (ord "-").
Hypothesis Hclose : s !! Z.to_nat (P + 2) = Some (ord "]").

Lemma clear_loop_length : P + 2 < Z.of_nat (length s).
Proof. apply lookup_lt_Some in Hclose. lia. Qed.

Lemma minus_round (ms stack : list Z) (c : Z) (fuel : nat) :
  0 <= mp -> ms !! Z.to_nat mp = Some c -> 0 < c < 256 ->
  start_program (S fuel)
    {| _memory := {| _storage := ms; _ptr := mp |};
       _program := {| _storage := s; _ptr := P + 1 |};
       _bracket_stack := stack |} sys
  = start_program fuel
      {| _memory := {| _storage := <[Z.to_nat mp := c - 1]> ms; _ptr := mp |};
         _program := {| _storage := s; _ptr := P + 2 |};
         _bracket_stack := stack |} sys.
Proof.
  pose proof clear_loop_length as Hlen. intros Hmp Hcell Hc.
  assert (Z.to_nat mp < length ms)%nat as Hmlen by (by eapply lookup_lt_Some).
  rewrite (start_program_S _ _ _ (ord "-"));
    [|by apply lookup_cur_elem; simpl; [lia|]|done].
  unfold start_program_round at 1. simpl dict_get.
  cbn -[start_program grow cur_elem cur_elem_set ptr_set __next__]. unfold _add_to_current_byte.
  cbn -[start_program grow cur_elem cur_elem_set ptr_set __next__].
  rewrite (lookup_cur_elem {| _storage := ms; _ptr := mp |} c) by done.
  cbn -[start_program grow cur_elem cur_elem_set ptr_set __next__].
  rewrite cur_elem_set_ok by (unfold tape_ok; simpl; lia).
  cbn -[start_program grow cur_elem cur_elem_set ptr_set __next__].
  rewrite ptr_set_ok by (simpl; lia). cbn -[start_program grow cur_elem cur_elem_set ptr_set __next__].
  rewrite grow_inside by lia.
  replace (c + -1) with (c - 1) by lia.
  rewrite (Z.mod_small (c - 1)) by lia.
  by replace (P + 1 + 1) with (P + 2) by lia.
Qed.

Lemma close_round_out (ms : list Z) (fuel : nat) :
  0 <= mp -> ms !! Z.to_nat mp = Some 0 ->
  start_program (S fuel)
    {| _memory := {| _storage := ms; _ptr := mp |};
       _program := {| _storage := s; _ptr := P + 2 |};
       _bracket_stack := st ++ [P] |} sys
  = start_program fuel
      {| _memory := {| _storage := ms; _ptr := mp |};
         _program := {| _storage := grow s (P + 3); _ptr := P + 3 |};
         _bracket_stack := st |} sys.
Proof.
  intros Hmp Hcell.
  rewrite (start_program_S _ _ _ (ord "]"));
    [|by apply lookup_cur_elem; simpl; [lia|]|done].
  unfold start_program_round at 1. simpl dict_get.
  cbn -[start_program grow cur_elem cur_elem_set ptr_set __next__ _right_bracket].
  rewrite right_bracket_out;
    [|by apply lookup_cur_elem
     |simpl; intros Hnil; symmetry in Hnil; by apply app_cons_not_nil in Hnil].
  cbn -[start_program grow cur_elem cur_elem_set ptr_set __next__]. rewrite removelast_last.
  rewrite ptr_set_ok by (simpl; lia). cbn -[start_program grow cur_elem cur_elem_set ptr_set __next__].
  by replace (P + 2 + 1) with (P + 3) by lia.
Qed.

Lemma close_round_back (ms : list Z) (c : Z) (fuel : nat) :
  0 <= mp -> ms !! Z.to_nat mp = Some c -> c <> 0 ->
  start_program (S fuel)
    {| _memory := {| _storage := ms; _ptr := mp |};
       _program := {| _storage := s; _ptr := P + 2 |};
       _bracket_stack := st ++ [P] |} sys
  = start_program fuel
      {| _memory := {| _storage := ms; _ptr := mp |};
         _program := {| _storage := s; _ptr := P + 1 |};
         _bracket_stack := st ++ [P] |} sys.
Proof.
  pose proof clear_loop_length as Hlen. intros Hmp Hcell Hc.
  rewrite (start_program_S _ _ _ (ord "]"));
    [|by apply lookup_cur_elem; simpl; [lia|]|done].
  unfold start_program_round at 1. simpl dict_get.
  cbn -[start_program grow cur_elem cur_elem_set ptr_set __next__ _right_bracket].
  rewrite (right_bracket_back _ _ _ c P);
    [|by apply lookup_cur_elem|done|simpl; apply last_snoc|done].
  cbn -[start_program grow cur_elem cur_elem_set ptr_set __next__].
  rewrite ptr_set_ok by (simpl; lia). cbn -[start_program grow cur_elem cur_elem_set ptr_set __next__].
  by rewrite !grow_inside by (rewrite ?grow_inside; lia).
Qed.

(** From the [-] of the loop, with the cell at [k + 1]: two rounds for
    each unit, and out of the loop when the cell is 0. *)
Lemma clear_loop_body (k : nat) : forall (ms : list Z) (fuel : nat),
  0 <= mp -> ms !! Z.to_nat mp = Some (Z.of_nat (S k)) ->
  Z.of_nat (S k) < 256 ->
  start_program (2 * S k + fuel)
    {| _memory := {| _storage := ms; _ptr := mp |};
       _program := {| _storage := s; _ptr := P + 1 |};
       _bracket_stack := st ++ [P] |} sys
  = start_program fuel
      {| _memory := {| _storage := <[Z.to_nat mp := 0]> ms; _ptr := mp |};
         _program := {| _storage := grow s (P + 3); _ptr := P + 3 |};
         _bracket_stack := st |} sys.
Proof.
  induction k as [|k IH]; intros ms fuel Hmp Hcell Hk.
  all: assert (Z.to_nat mp < length ms)%nat as Hmlen
         by (by eapply lookup_lt_Some).
  - replace (2 * 1 + fuel)%nat with (S (S fuel)) by lia.
    rewrite (minus_round _ _ 1) by (done || lia).
    apply close_round_out; [done|]. by rewrite list_lookup_insert_eq.
  - replace (2 * S (S k) + fuel)%nat with (S (S (2 * S k + fuel))) by lia.
    rewrite (minus_round _ _ (Z.of_nat (S (S k)))) by (done || lia).
    rewrite (close_round_back _ (Z.of_nat (S k)));
      [|done|rewrite list_lookup_insert_eq by done; f_equal; lia|lia].
    rewrite IH; [|done| |lia].
    + by rewrite list_insert_insert_eq.
    + rewrite list_lookup_insert_eq by done. f_equal. lia.
Qed.

(** The whole loop, from its [[], for a cell that holds [b]. *)
Lemma clear_loop_run (ms : list Z) (b : Z) (fuel : nat) :
  0 <= mp -> ms !! Z.to_nat mp = Some b -> 0 <= b < 256 ->
  (2 <= fuel)%nat ->
  start_program (2 * Z.to_nat b + 1 + fuel)
    {| _memory := {| _storage := ms; _ptr := mp |};
       _program := {| _storage := s; _ptr := P |};
       _bracket_stack := st |} sys
  = start_program fuel
      {| _memory := {| _storage := <[Z.to_nat mp := 0]> ms; _ptr := mp |};
         _program := {| _storage := grow s (P + 3); _ptr := P + 3 |};
         _bracket_stack := st |} sys.
Proof.
  pose proof clear_loop_length as Hlen.
  intros Hmp Hcell Hb Hfuel.
  replace (2 * Z.to_nat b + 1 + fuel)%nat
    with (S (2 * Z.to_nat b + fuel)) by lia.
  rewrite (start_program_S _ _ _ (ord "["));
    [|by apply lookup_cur_elem; simpl; [lia|]|done].
  unfold start_program_round at 1. simpl dict_get.
  cbn -[start_program grow cur_elem cur_elem_set ptr_set __next__ _left_bracket_scan]. unfold _left_bracket.
  cbn -[start_program grow cur_elem cur_elem_set ptr_set __next__ _left_bracket_scan].
  rewrite (lookup_cur_elem {| _storage := ms; _ptr := mp |} b) by done.
  cbn -[start_program grow cur_elem cur_elem_set ptr_set __next__ _left_bracket_scan].
  destruct (Z.eqb_spec b 0) as [->|Hb0]; cbn -[start_program grow cur_elem cur_elem_set ptr_set __next__ _left_bracket_scan].
  - rewrite pop_snoc. cbn -[start_program grow cur_elem cur_elem_set ptr_set __next__ _left_bracket_scan].
    destruct (next_ok {| _storage := s; _ptr := P |}) as (x & Hx & ->);
      [unfold tape_ok; simpl; lia|].
    cbn -[start_program grow cur_elem cur_elem_set ptr_set __next__ _left_bracket_scan].
    rewrite (grow_inside s (P + 1)) by lia.
    destruct fuel as [|[|fuel]]; [lia|lia|].
    change (Z.to_nat 0 + (Z.to_nat 0 + 0) + S (S fuel))%nat with (S (S fuel)).
    assert (__next__ {| _storage := s; _ptr := P + 1 |}
            = Ok (ord "-", {| _storage := s; _ptr := P + 2 |})) as Hn1.
    { destruct (next_ok {| _storage := s; _ptr := P + 1 |}) as (y & Hy & ->);
        [unfold tape_ok; simpl; lia|].
      simpl in Hy. rewrite Hminus in Hy. injection Hy as <-.
      cbn [_storage _ptr]. rewrite grow_inside by lia.
      by replace (P + 1 + 1) with (P + 2) by lia. }
    assert (__next__ {| _storage := s; _ptr := P + 2 |}
            = Ok (ord "]", {| _storage := grow s (P + 3); _ptr := P + 3 |}))
      as Hn2.
    { destruct (next_ok {| _storage := s; _ptr := P + 2 |}) as (z & Hz & ->);
        [unfold tape_ok; simpl; lia|].
      simpl in Hz. rewrite Hclose in Hz. injection Hz as <-.
      cbn [_storage _ptr]. by replace (P + 2 + 1) with (P + 3) by lia. }
    rewrite (scan_S_other _ _ _ _ _ Hn1) by done.
    rewrite (scan_S_close _ _ _ Hn2).
    cbn [_storage _ptr].
    pose proof (zero_extends_length _ _ (grow_zero_extends s (P + 3))) as Hg.
    rewrite ptr_set_ok by (simpl; lia).
    cbn -[start_program grow cur_elem cur_elem_set ptr_set __next__].
    rewrite ptr_set_ok by (simpl; lia).
    cbn -[start_program grow cur_elem cur_elem_set ptr_set __next__].
    replace (P + 3 - 1 + 1) with (P + 3) by lia.
    rewrite (grow_inside (grow s (P + 3)) (P + 3 - 1)) by lia.
    rewrite (grow_inside (grow s (P + 3)) (P + 3))
      by apply grow_exits.
    by rewrite list_insert_id.
  - rewrite ptr_set_ok by (simpl; lia). cbn -[start_program grow cur_elem cur_elem_set ptr_set __next__].
    rewrite grow_inside by lia.
    rewrite <- (clear_loop_body (Z.to_nat b - 1) ms fuel); [|done| |lia].
    + f_equal. lia.
    + rewrite Hcell. f_equal. lia.
Qed.
End clear_loop.

(** X14: the loop [[-]], entered with any byte [b] in the current cell,
    takes [2 * b + 1] rounds of the dispatch loop and leaves that cell at
    0, every other cell, the data cursor and the bracket stack as they
    were, and the program cursor just after the []]; the run goes on from
    there. *)
Theorem clear_loop_clears (fuel : nat) (self : BfTuringMachine) (sys : Sys)
    (pre post : list Z) (b : Z) :
  machine_ok self ->
  _storage (_program self) = pre ++ str "[-]" ++ post ->
  _ptr (_program self) = Z.of_nat (length pre) ->
  cur_elem (_memory self) = Ok b ->
  (2 <= fuel)%nat ->
  start_program (2 * Z.to_nat b + 1 + fuel) self sys
  = start_program fuel
      {| _memory :=
           {| _storage := <[Z.to_nat (_ptr (_memory self)) := 0]>
                            (_storage (_memory self));
              _ptr := _ptr (_memory self) |};
         _program :=
           {| _storage := grow (_storage (_program self))
                               (Z.of_nat (length pre) + 3);
              _ptr := Z.of_nat (length pre) + 3 |};
         _bracket_stack := _bracket_stack self |} sys.
Proof.
  intros [Hm Hb Hp Hs] Hprog Hptr Hcell Hfuel.
  pose proof (cur_elem_byte _ _ Hm Hb Hcell) as Hbyte.
  apply cur_elem_lookup in Hcell; [|done].
  destruct self as [[ms mp] [s P] st]. simpl in *. subst P.
  assert (forall i x, str "[-]" !! i = Some x ->
            s !! Z.to_nat (Z.of_nat (length pre) + Z.of_nat i) = Some x) as Hat.
  { intros i x Hi. rewrite Hprog.
    replace (Z.to_nat (Z.of_nat (length pre) + Z.of_nat i))
      with (length pre + i)%nat by lia.
    rewrite lookup_app_r by lia.
    replace (length pre + i - length pre)%nat with i by lia.
    by destruct i as [|[|[|i]]]; simpl in *. }
  apply clear_loop_run; try done; try lia.
  - replace (Z.of_nat (length pre)) with (Z.of_nat (length pre) + Z.of_nat 0) by lia.
    by apply Hat.
  - by apply (Hat 1%nat).
  - by apply (Hat 2%nat).
  - unfold tape_ok in Hm. simpl in Hm. lia.
Qed.

Lemma clear_loop_clears_witness :
  start_program (2 * Z.to_nat 200 + 1 + 2)
    {| _memory := {| _storage := [7; 200]; _ptr := 1 |};
       _program := {| _storage := str "+[-]."; _ptr := 1 |};
       _bracket_stack := [] |} {| stdin := []; stdout := [] |}
  = start_program 2
      {| _memory := {| _storage := <[1%nat := 0]> [7; 200]; _ptr := 1 |};
         _program := {| _storage := grow (str "+[-].") (1 + 3); _ptr := 1 + 3 |};
         _bracket_stack := [] |} {| stdin := []; stdout := [] |}.
Proof.
  apply (clear_loop_clears 2
           {| _memory := {| _storage := [7; 200]; _ptr := 1 |};
              _program := {| _storage := str "+[-]."; _ptr := 1 |};
              _bracket_stack := [] |}
           {| stdin := []; stdout := [] |} (str "+") (str ".") 200).
  - split; simpl; [unfold tape_ok; simpl; lia| |unfold tape_ok; simpl; lia
                  |constructor].
    repeat (constructor; [lia|]). constructor.
  - reflexivity.
  - reflexivity.
  - reflexivity.
  - lia.
Defined.

(** ** What a run leaves behind *)

Lemma handler_memory_length b h fuel self sys self' sys' :
  dict_get _bf_cmds b = Ok h -> machine_ok self ->
  h fuel self sys = Ok (self', sys') ->
  (length (_storage (_memory self)) <= length (_storage (_memory self')))%nat.
Proof.
  intros Hh [Hm Hb Hp Hs] H.
  apply dict_get_cmds in Hh as
    [[_ ->]|[[_ ->]|[[_ ->]|[[_ ->]|[[_ ->]|[[_ ->]|[[_ ->]|[_ ->]]]]]]]].
  1,2: unfold _shift_data_ptr in H;
    destruct (ptr_set _ _) as [m| |] eqn:E; simplify_eq/=;
    by eapply zero_extends_length, ptr_set_zero_extends.
  1,2: unfold _add_to_current_byte in H;
    destruct (cur_elem _) as [c| |]; simplify_eq/=;
    rewrite cur_elem_set_ok in H by done; simplify_eq/=;
    by rewrite length_insert.
  - unfold _current_byte_out in H.
    destruct (cur_elem _) as [c| |]; simplify_eq/=.
    destruct (to_bytes1 c); by simplify_eq/=.
  - unfold _read_byte_and_store, stdin_read1 in H.
    destruct (stdin sys); simpl in H;
      rewrite cur_elem_set_ok in H by done; simplify_eq/=;
      by rewrite length_insert.
  - unfold _left_bracket in H. simpl in H.
    destruct (cur_elem _) as [c| |]; simplify_eq/=.
    destruct (negb (c =? 0)); simplify_eq/=; [done|].
    rewrite pop_snoc in H. simpl in H.
    destruct (__next__ _) as [[x p1]| |]; simplify_eq/=.
    destruct (_left_bracket_scan _ _ _) as [p2| |]; by simplify_eq/=.
  - unfold _right_bracket in H.
    destruct (_bracket_stack self) as [|a l] eqn:El; [done|].
    destruct (cur_elem _) as [c| |]; simplify_eq/=.
    destruct (c =? 0); [by simplify_eq/=|].
    destruct (top _) as [t| |]; simplify_eq/=.
    destruct (ptr_set _ _) as [p| |]; by simplify_eq/=.
Qed.

(** X15: a run that returns from a sound machine leaves a sound machine
    whose program cursor is on a zero byte; the program storage is the one
    it started with followed by zero bytes only, so a run never changes
    its own program, and the memory has not become shorter. *)
Theorem run_leaves (fuel : nat) : forall (self self' : BfTuringMachine)
    (sys sys' : Sys),
  machine_ok self ->
  start_program fuel self sys = Ok (self', sys') ->
  machine_ok self' /\
  cur_elem (_program self') = Ok 0 /\
  zero_extends (_storage (_program self)) (_storage (_program self')) /\
  (length (_storage (_memory self)) <= length (_storage (_memory self')))%nat.
Proof.
  induction fuel as [|fuel IH]; intros self self' sys sys' Hok; [done|].
  rewrite start_program_unfold.
  destruct (cur_elem (_program self)) as [b| |] eqn:Eb;
    cbn -[start_program start_program_round]; try done.
  destruct (Z.eqb_spec b 0) as [->|Hb0];
    cbn -[start_program start_program_round].
  - intros [= <- <-]. split; [done|]. split; [done|].
    split; [apply zero_extends_refl|done].
  - destruct (start_program_round fuel b self sys) as [[self1 sys1]| |] eqn:E;
      cbn -[start_program start_program_round]; try done.
    intros Hrun.
    destruct (round_ok _ _ _ _ _ _ Hok E) as [Hok1 Hz1].
    destruct (IH _ _ _ _ Hok1 Hrun) as (Hok' & Hcur & Hz & Hlen).
    split; [done|]. split; [done|].
    split; [by eapply zero_extends_trans|].
    apply round_inv in E as (h & self2 & p & Hh & H1 & Hp & ->).
    pose proof (handler_memory_length _ _ _ _ _ _ _ Hh Hok H1).
    simpl in Hlen. lia.
Qed.

Lemma run_leaves_witness :
  machine_ok
    {| _memory := Tape_;
       _program := {| _storage := str ",[.-]" ++ bytearray 6; _ptr := 5 |};
       _bracket_stack := [] |} /\
  cur_elem {| _storage := str ",[.-]" ++ bytearray 6; _ptr := 5 |} = Ok 0 /\
  zero_extends (str ",[.-]") (str ",[.-]" ++ bytearray 6) /\
  (4096 <= 4096)%nat.
Proof.
  apply (run_leaves 12
           (with_program BfTuringMachine_ {| _storage := str ",[.-]"; _ptr := 0 |})
           {| _memory := Tape_;
              _program := {| _storage := str ",[.-]" ++ bytearray 6; _ptr := 5 |};
              _bracket_stack := [] |}
           {| stdin := [3]; stdout := [] |}
           {| stdin := []; stdout := [3; 2; 1] |}).
  - split; simpl; [unfold tape_ok; simpl; lia|apply Forall_replicate; lia
                  |unfold tape_ok; simpl; lia|constructor].
  - vm_compute. reflexivity.
Defined.

(** ** The bracket stack follows the program text *)

Lemma balanced_from_app a : forall d e b,
  balanced_from d a = true ->
  balanced_from (d + e) (a ++ b) = balanced_from e b.
Proof.
  induction a as [|c a IH]; intros d e b H; cbn [balanced_from app] in *.
  - by destruct d.
  - destruct (c =? ord "["); [by apply (IH (S d))|].
    destruct (c =? ord "]"); [|by apply IH].
    destruct d as [|d]; [done|]. by apply (IH d).
Qed.

Lemma balanced_app a b : balanced a -> balanced b -> balanced (a ++ b).
Proof.
  unfold balanced. intros Ha Hb.
  pose proof (balanced_from_app a 0 0 b Ha) as H. simpl in H. by rewrite H.
Qed.

Lemma balanced_loop body : balanced body -> balanced (ord "[" :: body ++ [ord "]"]).
Proof.
  unfold balanced. intros H. cbn [balanced_from]. simpl (_ =? _).
  pose proof (balanced_from_app body 0 1 [ord "]"] H) as H1.
  simpl in H1. by rewrite H1.
Qed.

Lemma balanced_other c : c <> ord "[" -> c <> ord "]" -> balanced [c].
Proof.
  intros Ho Hc. unfold balanced. cbn [balanced_from].
  destruct (Z.eqb_spec c (ord "[")); [done|].
  by destruct (Z.eqb_spec c (ord "]")).
Qed.

Lemma open_brackets_app text stack seg :
  open_brackets text stack -> balanced seg -> open_brackets (text ++ seg) stack.
Proof.
  intros H Hseg. destruct H as [text Hb|pre body stack Hpre Hbody].
  - constructor. by apply balanced_app.
  - rewrite <- app_assoc. cbn [app]. constructor; [done|].
    by apply balanced_app.
Qed.

Lemma open_brackets_inv text stack :
  open_brackets text stack ->
  (stack = [] /\ balanced text) \/
  (exists pre body st,
     text = pre ++ ord "[" :: body /\ stack = st ++ [Z.of_nat (length pre)] /\
     balanced body /\ open_brackets pre st).
Proof.
  intros [text' Hb|pre body st Hpre Hbody]; [by left|].
  right. by exists pre, body, st.
Qed.

Lemma take_zero_extends s s' n :
  zero_extends s s' -> (n <= length s)%nat -> take n s' = take n s.
Proof. intros [k ->] H. by apply take_app_le. Qed.

(** A scan that returns has gone through a balanced text and stopped on
    the []] after it. *)
Lemma scan_sound fuel : forall p n p',
  tape_ok p -> 0 <= n -> _left_bracket_scan fuel p n = Ok p' ->
  exists body post,
    drop (Z.to_nat (_ptr p)) (_storage p) = body ++ ord "]" :: post /\
    balanced_from (Z.to_nat n) body = true /\
    _ptr p' = _ptr p + Z.of_nat (length body).
Proof.
  induction fuel as [|fuel IH]; intros p n p' Hp Hn; [done|].
  rewrite scan_S. destruct (next_ok p Hp) as (x & Hx & ->).
  pose proof Hp as [Hlo Hhi].
  set (p1 := {| _storage := grow (_storage p) (_ptr p + 1);
                _ptr := _ptr p + 1 |}).
  pose proof (drop_S _ _ _ Hx) as Hdrop.
  assert (forall m, 0 <= m -> _left_bracket_scan fuel p1 m = Ok p' ->
            exists body post,
              drop (S (Z.to_nat (_ptr p))) (_storage p) = body ++ ord "]" :: post /\
              balanced_from (Z.to_nat m) body = true /\
              _ptr p' = _ptr p + 1 + Z.of_nat (length body)) as Hrec.
  { intros m Hm Hsc.
    destruct (decide (_ptr p + 1 < Z.of_nat (length (_storage p)))) as [Hin|Hout].
    - subst p1. rewrite grow_inside in Hsc by done.
      apply IH in Hsc as (body & post & Hd & Hb & Hq);
        [|unfold tape_ok; simpl; lia|done].
      simpl in Hd, Hq. exists body, post.
      replace (Z.to_nat (_ptr p + 1)) with (S (Z.to_nat (_ptr p))) in Hd by lia.
      done.
    - rewrite scan_no_close_diverges in Hsc; [done| |].
      + eapply (ptr_set_tape_ok p (_ptr p + 1)). apply ptr_set_ok. lia.
      + subst p1. cbn [_storage _ptr]. intros i y Hi Hy.
        assert (y = 0) as ->; [|done].
        eapply zero_extends_lookup_new; [apply grow_zero_extends|done|lia]. }
  case_bool_decide as Hin; cbn [negb].
  - destruct (Z.eqb_spec x (ord "[")) as [->|Hno].
    + intros (body & post & Hd & Hb & Hq)%Hrec; [|lia].
      exists (ord "[" :: body), post. rewrite Hdrop, Hd.
      split; [done|]. split; [|simpl; lia].
      cbn [balanced_from]. simpl (_ =? _).
      by replace (S (Z.to_nat n)) with (Z.to_nat (n + 1)) by lia.
    + assert (x = ord "]") as ->.
      { simpl in Hin. rewrite !elem_of_cons, elem_of_nil in Hin.
        by destruct Hin as [?|[?|[]]]. }
      destruct (Z.eqb_spec n 0) as [->|Hn0]; cbn [negb].
      * intros (_ & Hq & _)%ptr_set_inv. exists [], (drop (S (Z.to_nat (_ptr p))) (_storage p)).
        rewrite Hdrop. split; [done|]. split; [done|]. simpl in *. lia.
      * intros (body & post & Hd & Hb & Hq)%Hrec; [|lia].
        exists (ord "]" :: body), post. rewrite Hdrop, Hd.
        split; [done|]. split; [|simpl; lia].
        cbn [balanced_from]. simpl (_ =? _).
        replace (Z.to_nat n) with (S (Z.to_nat (n - 1))) by lia. done.
  - intros (body & post & Hd & Hb & Hq)%Hrec; [|lia].
    exists (x :: body), post. rewrite Hdrop, Hd.
    split; [done|]. split; [|simpl; lia].
    cbn [balanced_from].
    destruct (Z.eqb_spec x (ord "[")) as [->|_].
    { exfalso. apply Hin. by apply (bool_decide_unpack _). }
    destruct (Z.eqb_spec x (ord "]")) as [->|_]; [|done].
    exfalso. apply Hin. by apply (bool_decide_unpack _).
Qed.

(** What a handler that returns has done to the program tape and to the
    bracket stack: one of five things. *)
Lemma handler_program_effect b h fuel self sys self1 sys1 :
  dict_get _bf_cmds b = Ok h -> machine_ok self ->
  cur_elem (_program self) = Ok b ->
  h fuel self sys = Ok (self1, sys1) ->
  (b <> ord "[" /\ b <> ord "]" /\ _program self1 = _program self /\
   _bracket_stack self1 = _bracket_stack self) \/
  (b = ord "[" /\ _program self1 = _program self /\
   _bracket_stack self1 = _bracket_stack self ++ [_ptr (_program self)]) \/
  (b = ord "[" /\ _bracket_stack self1 = _bracket_stack self /\
   zero_extends (_storage (_program self)) (_storage (_program self1)) /\
   exists body post,
     drop (S (Z.to_nat (_ptr (_program self)))) (_storage (_program self))
       = body ++ ord "]" :: post /\
     balanced body /\
     _ptr (_program self1) = _ptr (_program self) + 1 + Z.of_nat (length body)) \/
  (b = ord "]" /\ _program self1 = _program self /\
   _bracket_stack self <> [] /\
   _bracket_stack self1 = removelast (_bracket_stack self)) \/
  (b = ord "]" /\ _bracket_stack self1 = _bracket_stack self /\
   exists t, last (_bracket_stack self) = Some t /\
     _program self1 =
       {| _storage := grow (_storage (_program self)) t; _ptr := t |}).
Proof.
  intros Hh [Hm Hb Hp Hs] Hcur H.
  apply dict_get_cmds in Hh as
    [[-> ->]|[[-> ->]|[[-> ->]|[[-> ->]|[[-> ->]|[[-> ->]|[[-> ->]|[-> ->]]]]]]]].
  1,2: unfold _shift_data_ptr in H;
    destruct (ptr_set _ _) as [m| |]; simplify_eq/=; left; done.
  1,2: unfold _add_to_current_byte in H;
    destruct (cur_elem (_memory self)) as [c| |]; simplify_eq/=;
    destruct (cur_elem_set _ _) as [m| |]; simplify_eq/=; left; done.
  - unfold _current_byte_out in H.
    destruct (cur_elem (_memory self)) as [c| |]; simplify_eq/=.
    destruct (to_bytes1 c); simplify_eq/=. left. done.
  - unfold _read_byte_and_store, stdin_read1 in H.
    destruct (stdin sys); simpl in H;
      destruct (cur_elem_set _ _) as [m| |]; simplify_eq/=; left; done.
  - right. unfold _left_bracket in H. cbn -[_left_bracket_scan] in H.
    destruct (cur_elem (_memory self)) as [c| |];
      cbn -[_left_bracket_scan] in H; [|done..].
    destruct (negb (c =? 0)).
    { injection H as <- <-. left. done. }
    right. left. rewrite pop_snoc in H. cbn -[_left_bracket_scan] in H.
    destruct (next_ok _ Hp) as (x & Hx & En). rewrite En in H.
    cbn -[_left_bracket_scan grow] in H.
    destruct (_left_bracket_scan _ _ _) as [p2| |] eqn:Esc;
      cbn -[_left_bracket_scan grow] in H; [|done..].
    injection H as <- <-. cbn -[grow].
    pose proof Hp as [Hlo Hhi].
    pose proof (scan_inv _ _ _ _ Esc) as [_ Hz]. cbn -[grow] in Hz.
    split; [done|]. split; [done|]. split.
    { eapply zero_extends_trans; [apply grow_zero_extends|done]. }
    destruct (decide (_ptr (_program self) + 1
                      < Z.of_nat (length (_storage (_program self)))))
      as [Hin|Hout].
    + rewrite grow_inside in Esc by done.
      apply scan_sound in Esc as (body & post & Hd & Hbal & Hq);
        [|unfold tape_ok; simpl; lia|done].
      simpl in Hd, Hq. exists body, post.
      replace (Z.to_nat (_ptr (_program self) + 1))
        with (S (Z.to_nat (_ptr (_program self)))) in Hd by lia.
      done.
    + rewrite scan_no_close_diverges in Esc; [done| |].
      * eapply (ptr_set_tape_ok (_program self) (_ptr (_program self) + 1)).
        apply ptr_set_ok. lia.
      * cbn [_storage _ptr]. intros i y Hi Hy.
        assert (y = 0) as ->; [|done].
        eapply zero_extends_lookup_new; [apply grow_zero_extends|done|lia].
  - do 3 right. unfold _right_bracket in H.
    destruct (_bracket_stack self) as [|a l] eqn:El; [done|].
    destruct (cur_elem (_memory self)) as [c| |]; simplify_eq/=.
    destruct (c =? 0).
    + simpl in H. simplify_eq. left. done.
    + unfold top in H. destruct (last (a :: l)) as [t|] eqn:Et; simplify_eq/=.
      destruct (ptr_set _ _) as [p| |] eqn:E; simplify_eq/=.
      right. split; [done|]. split; [done|]. exists t. split; [done|].
      apply ptr_set_inv in E as (_ & ? & ?). destruct p. simpl in *. congruence.
Qed.

Lemma take_step s s' i b :
  s !! i = Some b -> zero_extends s s' -> take (S i) s' = take i s ++ [b].
Proof.
  intros Hb Hz. rewrite (take_S_r s' i b) by by eapply zero_extends_lookup.
  f_equal. apply take_zero_extends; [done|].
  apply lookup_lt_Some in Hb. lia.
Qed.

(** A round of the dispatch loop keeps the bracket stack in step with the
    program text before the cursor. *)
Lemma round_tracks fuel b self sys self' sys' :
  machine_ok self -> brackets_tracked self ->
  cur_elem (_program self) = Ok b ->
  start_program_round fuel b self sys = Ok (self', sys') ->
  brackets_tracked self'.
Proof.
  intros Hok Htr Hcur (h & self1 & p & Hh & H1 & Hp & ->)%round_inv.
  pose proof (program_ok _ Hok) as [Hlo Hhi].
  pose proof (cur_elem_lookup _ _ (program_ok _ Hok) Hcur) as Hb.
  set (s := _storage (_program self)) in *.
  set (i := Z.to_nat (_ptr (_program self))) in *.
  unfold brackets_tracked in *. fold s i in Htr.
  apply ptr_set_inv in Hp as (Hp0 & Hpp & Hps). cbn [with_program _program _bracket_stack].
  rewrite Hpp, Hps.
  destruct (handler_program_effect _ _ _ _ _ _ _ Hh Hok Hcur H1)
    as [(Ho & Hc & Hprog & Hst)
       |[(-> & Hprog & Hst)
        |[(-> & Hst & Hz & body & post & Hd & Hbal & Hq)
         |[(-> & Hprog & Hne & Hst)
          |(-> & Hst & t & Ht & Hprog)]]]].
  - rewrite Hprog, Hst. fold s.
    replace (Z.to_nat (_ptr (_program self) + 1)) with (S i) by lia.
    rewrite (take_step s _ i b Hb) by apply grow_zero_extends.
    apply open_brackets_app; [done|]. by apply balanced_other.
  - rewrite Hprog, Hst. fold s.
    replace (Z.to_nat (_ptr (_program self) + 1)) with (S i) by lia.
    rewrite (take_step s _ i _ Hb) by apply grow_zero_extends.
    replace (_ptr (_program self)) with (Z.of_nat (length (take i s))).
    + constructor; done.
    + rewrite length_take_le; lia.
  - rewrite Hst, Hq. fold s i in Hd.
    assert (s = take i s ++ (ord "[" :: body ++ [ord "]"]) ++ post) as Hs.
    { rewrite <- (take_drop i s) at 1. f_equal.
      rewrite (drop_S _ _ _ Hb), Hd. cbn [app]. by rewrite <- app_assoc. }
    assert (length (take i s) = i) as Hlen by (rewrite length_take_le; lia).
    rewrite (take_zero_extends s).
    + rewrite Hs at 1. rewrite app_assoc.
      rewrite take_app_length'.
      * apply open_brackets_app; [done|]. by apply balanced_loop.
      * rewrite !length_app, Hlen. cbn [length]. rewrite length_app. simpl. lia.
    + eapply zero_extends_trans; [done|apply grow_zero_extends].
    + rewrite Hs, !length_app, Hlen. cbn [length]. rewrite length_app. simpl. lia.
  - rewrite Hprog, Hst. fold s.
    replace (Z.to_nat (_ptr (_program self) + 1)) with (S i) by lia.
    rewrite (take_step s _ i _ Hb) by apply grow_zero_extends.
    apply open_brackets_inv in Htr as [[? _]|(pre & body & st & Ht & -> & Hbal & Hpre)];
      [done|].
    rewrite removelast_last, Ht, <- app_assoc. cbn [app].
    apply open_brackets_app; [done|].
    rewrite app_comm_cons. by apply balanced_loop.
  - rewrite Hst, Hprog. cbn [_storage _ptr].
    apply open_brackets_inv in Htr as [[Hnil _]|(pre & body & st & Hpre & Hstack & Hbal & Hop)].
    { rewrite Hnil in Ht. done. }
    rewrite Hstack in Ht |- *. rewrite last_snoc in Ht. injection Ht as <-.
    replace (Z.to_nat (Z.of_nat (length pre) + 1)) with (S (length pre)) by lia.
    assert (length pre < i)%nat as Hlt.
    { assert (length (take i s) = i) as <- by (rewrite length_take_le; lia).
      rewrite Hpre, length_app. simpl. lia. }
    rewrite (take_zero_extends s);
      [|eapply zero_extends_trans; apply grow_zero_extends|lia].
    replace (take (S (length pre)) s) with (take (S (length pre)) (take i s))
      by (rewrite take_take; f_equal; lia).
    rewrite Hpre.
    replace (pre ++ ord "[" :: body) with ((pre ++ [ord "["]) ++ body)
      by (by rewrite <- app_assoc).
    rewrite (take_app_length' (pre ++ [ord "["]) body).
    + constructor; done.
    + rewrite length_app. simpl. lia.
Qed.

Lemma reachable_tracked source input self sys :
  reachable source input self sys -> brackets_tracked self.
Proof.
  induction 1 as [self H|self sys b fuel self' sys' Hr IH Hcur _ H].
  - rewrite run_loaded in H. injection H as <-. by constructor.
  - destruct (reachable_ok _ _ _ _ Hr) as [Hok _]. by eapply round_tracks.
Qed.

(** ** Going round a loop (C2) *)

(** C2, as amended: in every state of a run in which []] is run with a
    cell that is not 0 and a bracket stack that is not empty, the top of
    the stack is the position of the matching [[]: the program is
    [pre ++ "[" ++ body ++ "]" ++ post] with a balanced [body], the cursor
    on that []] and the top of the stack the position of that [[].  The
    handler sets the program cursor to it and pops nothing; the round of
    the dispatch loop then steps the cursor one place on, so the run goes
    on with the instruction after that [[], which is not run again and
    pushes nothing; memory, bracket stack, input and output are as they
    were. *)
Theorem right_bracket_rewinds :
  forall (source input : list Z) (self : BfTuringMachine) (sys : Sys)
         (fuel : nat) (c : Z),
    reachable source input self sys ->
    cur_elem (_program self) = Ok (ord "]") ->
    _bracket_stack self <> [] ->
    cur_elem (_memory self) = Ok c -> c <> 0 ->
    exists (pre body post : list Z) (p1 p2 : Tape),
      _storage (_program self) = pre ++ ord "[" :: body ++ ord "]" :: post /\
      balanced body /\
      _ptr (_program self) = Z.of_nat (length pre + 1 + length body) /\
      last (_bracket_stack self) = Some (Z.of_nat (length pre)) /\
      _right_bracket fuel self sys = Ok (with_program self p1, sys) /\
      _ptr p1 = Z.of_nat (length pre) /\
      cur_elem p1 = Ok (ord "[") /\
      zero_extends (_storage (_program self)) (_storage p1) /\
      start_program_round fuel (ord "]") self sys
        = Ok (with_program self p2, sys) /\
      _ptr p2 = Z.of_nat (length pre) + 1 /\
      zero_extends (_storage (_program self)) (_storage p2) /\
      start_program (S fuel) self sys
        = start_program fuel (with_program self p2) sys.
Proof.
  intros source input self sys fuel c Hr Hcur Hne Hc Hc0.
  destruct (reachable_ok _ _ _ _ Hr) as [[_ _ Hp _] _].
  pose proof Hp as [Hlo Hhi].
  pose proof (cur_elem_lookup _ _ Hp Hcur) as Hb.
  pose proof (reachable_tracked _ _ _ _ Hr) as Htr.
  unfold brackets_tracked in Htr.
  set (s := _storage (_program self)) in *.
  set (i := Z.to_nat (_ptr (_program self))) in *.
  apply open_brackets_inv in Htr
    as [[? _]|(pre & body & st & Hpre & Hstack & Hbal & _)]; [done|].
  assert (length (take i s) = i) as Hlen by (rewrite length_take_le; lia).
  assert (s = pre ++ ord "[" :: body ++ ord "]" :: drop (S i) s) as Hs.
  { rewrite <- (take_drop i s) at 1. rewrite Hpre, (drop_S _ _ _ Hb).
    by rewrite <- app_assoc. }
  assert (_ptr (_program self) = Z.of_nat (length pre + 1 + length body))
    as Hptr.
  { rewrite Hpre, length_app in Hlen. simpl in Hlen. lia. }
  assert (last (_bracket_stack self) = Some (Z.of_nat (length pre))) as Htop
    by (rewrite Hstack; apply last_snoc).
  assert (s !! length pre = Some (ord "[")) as Hopen
    by (rewrite Hs; by apply list_lookup_middle).
  set (t := Z.of_nat (length pre)) in *.
  set (p1 := {| _storage := grow s t; _ptr := t |}).
  set (p2 := {| _storage := grow (_storage p1) (t + 1); _ptr := t + 1 |}).
  assert (_right_bracket fuel self sys = Ok (with_program self p1, sys)) as Hrb
    by (apply (right_bracket_back _ _ _ c); [done|done|done|lia]).
  assert (start_program_round fuel (ord "]") self sys
          = Ok (with_program self p2, sys)) as Hround.
  { unfold start_program_round. simpl dict_get. cbn -[_right_bracket].
    rewrite Hrb. simpl. rewrite ptr_set_ok by lia. done. }
  exists pre, body, (drop (S i) s), p1, p2.
  split; [done|]. split; [done|]. split; [done|]. split; [done|].
  split; [done|]. split; [done|]. split.
  { apply lookup_cur_elem; [simpl; lia|]. simpl.
    eapply zero_extends_lookup; [apply grow_zero_extends|].
    by replace (Z.to_nat t) with (length pre) by lia. }
  split; [apply grow_zero_extends|]. split; [done|]. split; [done|]. split.
  { eapply zero_extends_trans; apply grow_zero_extends. }
  by rewrite (start_program_S _ _ _ (ord "]")), Hround.
Qed.

Lemma right_bracket_rewinds_witness :
  exists (pre body post : list Z) (p1 p2 : Tape),
    str "++[-]" = pre ++ ord "[" :: body ++ ord "]" :: post /\
    balanced body /\
    4 = Z.of_nat (length pre + 1 + length body) /\
    last [2] = Some (Z.of_nat (length pre)) /\
    _right_bracket O
      {| _memory := {| _storage := <[0%nat := 1]> (bytearray 4096); _ptr := 0 |};
         _program := {| _storage := str "++[-]"; _ptr := 4 |};
         _bracket_stack := [2] |} {| stdin := []; stdout := [] |}
    = Ok (with_program
      {| _memory := {| _storage := <[0%nat := 1]> (bytearray 4096); _ptr := 0 |};
         _program := {| _storage := str "++[-]"; _ptr := 4 |};
         _bracket_stack := [2] |} p1, {| stdin := []; stdout := [] |}) /\
    _ptr p1 = Z.of_nat (length pre) /\
    cur_elem p1 = Ok (ord "[") /\
    zero_extends (str "++[-]") (_storage p1) /\
    start_program_round O (ord "]")
      {| _memory := {| _storage := <[0%nat := 1]> (bytearray 4096); _ptr := 0 |};
         _program := {| _storage := str "++[-]"; _ptr := 4 |};
         _bracket_stack := [2] |} {| stdin := []; stdout := [] |}
    = Ok (with_program
      {| _memory := {| _storage := <[0%nat := 1]> (bytearray 4096); _ptr := 0 |};
         _program := {| _storage := str "++[-]"; _ptr := 4 |};
         _bracket_stack := [2] |} p2, {| stdin := []; stdout := [] |}) /\
    _ptr p2 = Z.of_nat (length pre) + 1 /\
    zero_extends (str "++[-]") (_storage p2) /\
    start_program 1
      {| _memory := {| _storage := <[0%nat := 1]> (bytearray 4096); _ptr := 0 |};
         _program := {| _storage := str "++[-]"; _ptr := 4 |};
         _bracket_stack := [2] |} {| stdin := []; stdout := [] |}
    = start_program 0
        (with_program
      {| _memory := {| _storage := <[0%nat := 1]> (bytearray 4096); _ptr := 0 |};
         _program := {| _storage := str "++[-]"; _ptr := 4 |};
         _bracket_stack := [2] |} p2) {| stdin := []; stdout := [] |}.
Proof.
  assert (reachable (str "++[-]") []
      {| _memory := {| _storage := <[0%nat := 1]> (bytearray 4096); _ptr := 0 |};
         _program := {| _storage := str "++[-]"; _ptr := 4 |};
         _bracket_stack := [2] |} {| stdin := []; stdout := [] |}) as Hr.
  { pose (mem := fun c : Z =>
            {| _storage := <[0%nat := c]> (bytearray 4096); _ptr := 0 |}).
    pose (st := fun (c pc : Z) (stack : list Z) =>
            {| _memory := mem c;
               _program := {| _storage := str "++[-]"; _ptr := pc |};
               _bracket_stack := stack |}).
    assert (reachable (str "++[-]") [] (st 0 0 []) {| stdin := []; stdout := [] |}) as H0
      by (apply reachable_loaded; reflexivity).
    assert (reachable (str "++[-]") [] (st 1 1 []) {| stdin := []; stdout := [] |}) as H1
      by (by eapply (reachable_round _ _ _ _ (ord "+") O); [exact H0|..]).
    assert (reachable (str "++[-]") [] (st 2 2 []) {| stdin := []; stdout := [] |}) as H2
      by (by eapply (reachable_round _ _ _ _ (ord "+") O); [exact H1|..]).
    assert (reachable (str "++[-]") [] (st 2 3 [2]) {| stdin := []; stdout := [] |}) as H3
      by (by eapply (reachable_round _ _ _ _ (ord "[") O); [exact H2|..]).
    by eapply (reachable_round _ _ _ _ (ord "-") O); [exact H3|..]. }
  apply (right_bracket_rewinds (str "++[-]") []
      {| _memory := {| _storage := <[0%nat := 1]> (bytearray 4096); _ptr := 0 |};
         _program := {| _storage := str "++[-]"; _ptr := 4 |};
         _bracket_stack := [2] |} {| stdin := []; stdout := [] |} O 1 Hr).
  - reflexivity.
  - done.
  - reflexivity.
  - lia.
Defined.

(** C2 as stated fails: in the program [++[-]], the first time []] runs
    (cell 1, bracket stack [[2]]) the round leaves the program cursor on
    the [-] at position 3, not on the [[] at position 2, and the round
    after that leaves the bracket stack as it was: [[] is not run again
    and pushes nothing. *)
Lemma right_bracket_rewinds_counterexample :
  exists (self self1 self2 : BfTuringMachine) (sys : Sys),
    reachable (str "++[-]") [] self sys /\
    cur_elem (_program self) = Ok (ord "]") /\
    _bracket_stack self = [2] /\
    cur_elem (_memory self) = Ok 1 /\
    start_program_round O (ord "]") self sys = Ok (self1, sys) /\
    _ptr (_program self1) = 3 /\
    cur_elem (_program self1) = Ok (ord "-") /\
    cur_elem (_program self1) <> Ok (ord "[") /\
    _bracket_stack self1 = [2] /\
    start_program_round O (ord "-") self1 sys = Ok (self2, sys) /\
    _bracket_stack self2 = [2].
Proof.
  pose (sys := {| stdin := []; stdout := [] |}).
  pose (mem := fun c : Z => {| _storage := <[0%nat := c]> (bytearray 4096); _ptr := 0 |}).
  pose (st := fun (c pc : Z) (stack : list Z) =>
          {| _memory := mem c;
             _program := {| _storage := str "++[-]"; _ptr := pc |};
             _bracket_stack := stack |}).
  assert (reachable (str "++[-]") [] (st 0 0 []) sys) as H0
    by (apply reachable_loaded; reflexivity).
  assert (reachable (str "++[-]") [] (st 1 1 []) sys) as H1
    by (by eapply (reachable_round _ _ _ _ (ord "+") O); [exact H0|..]).
  assert (reachable (str "++[-]") [] (st 2 2 []) sys) as H2
    by (by eapply (reachable_round _ _ _ _ (ord "+") O); [exact H1|..]).
  assert (reachable (str "++[-]") [] (st 2 3 [2]) sys) as H3
    by (by eapply (reachable_round _ _ _ _ (ord "[") O); [exact H2|..]).
  assert (reachable (str "++[-]") [] (st 1 4 [2]) sys) as H4
    by (by eapply (reachable_round _ _ _ _ (ord "-") O); [exact H3|..]).
  exists (st 1 4 [2]), (st 1 3 [2]), (st 0 4 [2]), sys.
  repeat apply conj; try done.
Qed.
